(** * Glass: capture coordinator, photo cache and WebSocket broadcaster

    A shallow embedding of [ExampleMentraOSApp] (the broadcaster-equipped
    variant of the server, with the 2000 ms streaming interval) and the
    properties of its per-user streaming state machine, its photo cache and
    its broadcast fan-out.

    The five per-user [Map]s of the class are [gmap]s keyed by the user id.
    Handlers are written in a small state/exception/output monad [M], so that
    [try]/[catch]/[finally] and the effects a handler has on the outside world
    (camera requests, WebSocket sends, layouts) read as they do in the
    source.  Logger calls have no effect on the state and are left out. *)

From Stdlib Require Import ZArith String Ascii List Bool Lia.
From Stdlib Require Import Strings.Byte DecimalString DecimalPos DecimalZ.
From stdpp Require Import base option gmap strings list.

(** ** Data model *)

(** [PhotoData] of the SDK, as returned by [session.camera.requestPhoto()].
    A [Date] is its epoch-milliseconds value ([getTime()]). *)
Module PhotoData.
Record t := mk {
  requestId : string;
  buffer : list byte;
  timestamp : Z;
  mimeType : string;
  filename : string;
  size : Z
}.
End PhotoData.

(** [interface StoredPhoto]. *)
Module StoredPhoto.
Record t := mk {
  requestId : string;
  buffer : list byte;
  timestamp : Z;
  userId : string;
  mimeType : string;
  filename : string;
  size : Z
}.
End StoredPhoto.

(** [enum StreamingMode]; the map holding it is declared and never used. *)
Inductive StreamingMode := OFF | PHOTO_SLOW | PHOTO_FAST.

(** The [readyState] of a [ws] socket. *)
Inductive ReadyState := CONNECTING | OPEN | CLOSING | CLOSED.

Global Instance ReadyState_eq_dec : EqDecision ReadyState.
Proof. solve_decision. Defined.

(** A socket object as a broadcast sees it: [ws_id] is the identity of the
    object (what [indexOf] compares), [readyState] its state, and
    [send_throws] tells whether [ws.send] raises. *)
Record WebSocket := mkWebSocket {
  ws_id : nat;
  readyState : ReadyState;
  send_throws : bool
}.

(** The fields of [ExampleMentraOSApp]. *)
Record AppState := mkAppState {
  photos : gmap string StoredPhoto.t;
  latestPhotoTimestamp : gmap string Z;
  isStreamingPhotos : gmap string bool;
  nextPhotoTime : gmap string Z;
  activeRequests : gmap string bool;
  activeStreams : gmap string (list WebSocket);
  streamingMode : gmap string StreamingMode
}.

(** [new ExampleMentraOSApp()]: every map is empty. *)
Definition initial : AppState :=
  mkAppState ∅ ∅ ∅ ∅ ∅ ∅ ∅.

Definition set_photos (f : gmap string StoredPhoto.t → gmap string StoredPhoto.t)
    (s : AppState) : AppState :=
  mkAppState (f (photos s)) (latestPhotoTimestamp s) (isStreamingPhotos s)
    (nextPhotoTime s) (activeRequests s) (activeStreams s) (streamingMode s).

Definition set_latestPhotoTimestamp (f : gmap string Z → gmap string Z)
    (s : AppState) : AppState :=
  mkAppState (photos s) (f (latestPhotoTimestamp s)) (isStreamingPhotos s)
    (nextPhotoTime s) (activeRequests s) (activeStreams s) (streamingMode s).

Definition set_isStreamingPhotos (f : gmap string bool → gmap string bool)
    (s : AppState) : AppState :=
  mkAppState (photos s) (latestPhotoTimestamp s) (f (isStreamingPhotos s))
    (nextPhotoTime s) (activeRequests s) (activeStreams s) (streamingMode s).

Definition set_nextPhotoTime (f : gmap string Z → gmap string Z)
    (s : AppState) : AppState :=
  mkAppState (photos s) (latestPhotoTimestamp s) (isStreamingPhotos s)
    (f (nextPhotoTime s)) (activeRequests s) (activeStreams s) (streamingMode s).

Definition set_activeRequests (f : gmap string bool → gmap string bool)
    (s : AppState) : AppState :=
  mkAppState (photos s) (latestPhotoTimestamp s) (isStreamingPhotos s)
    (nextPhotoTime s) (f (activeRequests s)) (activeStreams s) (streamingMode s).

Definition set_activeStreams
    (f : gmap string (list WebSocket) → gmap string (list WebSocket))
    (s : AppState) : AppState :=
  mkAppState (photos s) (latestPhotoTimestamp s) (isStreamingPhotos s)
    (nextPhotoTime s) (activeRequests s) (f (activeStreams s)) (streamingMode s).

(** ** Effects on the outside world *)

Inductive Effect :=
  | RequestPhoto (userId : string)
      (* session.camera.requestPhoto() on the session of userId *)
  | WsSend (ws : nat) (message : string)
      (* ws.send(message) returned normally *)
  | ShowTextWall (userId : string) (text : string).
      (* session.layouts.showTextWall(text, ...) *)

Global Instance Effect_eq_dec : EqDecision Effect.
Proof. solve_decision. Defined.

(** What a rejected promise or a [throw] carries: [error.message], when the
    value has one. *)
Record JSError := mkJSError { message : option string }.

Inductive Completion (A : Type) :=
  | Normal (a : A)
  | Throw (e : JSError).
Arguments Normal {A} a.
Arguments Throw {A} e.

(** ** The handler monad: state, exceptions, emitted effects *)

Definition M (A : Type) : Type :=
  AppState → Completion A * AppState * list Effect.

Definition ret {A} (a : A) : M A := λ s, (Normal a, s, []).

Definition bind {A B} (m : M A) (k : A → M B) : M B := λ s,
  match m s with
  | (Normal a, s1, o1) => let '(c, s2, o2) := k a s1 in (c, s2, o1 ++ o2)
  | (Throw e, s1, o1) => (Throw e, s1, o1)
  end.

Definition throw {A} (e : JSError) : M A := λ s, (Throw e, s, []).

Definition gets {A} (f : AppState → A) : M A := λ s, (Normal (f s), s, []).

Definition modify (f : AppState → AppState) : M unit := λ s, (Normal tt, f s, []).

Definition emit (e : Effect) : M unit := λ s, (Normal tt, s, [e]).

(** [try { body } catch (error) { handler error }] *)
Definition try_catch {A} (body : M A) (handler : JSError → M A) : M A := λ s,
  match body s with
  | (Throw e, s1, o1) => let '(c, s2, o2) := handler e s1 in (c, s2, o1 ++ o2)
  | r => r
  end.

(** [try { body } finally { fin }]: [fin] runs on either completion of
    [body], and the completion of [body] stands unless [fin] throws. *)
Definition try_finally {A} (body : M A) (fin : M unit) : M A := λ s,
  let '(c, s1, o1) := body s in
  match fin s1 with
  | (Normal _, s2, o2) => (c, s2, o1 ++ o2)
  | (Throw e, s2, o2) => (Throw e, s2, o1 ++ o2)
  end.

(** Calling an [async] function without awaiting it: what it throws rejects
    its own promise and does not reach the caller. *)
Definition unawaited (m : M unit) : M unit := λ s,
  let '(_, s1, o1) := m s in (Normal tt, s1, o1).

Global Instance M_ret : MRet M := @ret.
Global Instance M_bind : MBind M := λ A B k m, bind m k.

Definition completion {A} (r : Completion A * AppState * list Effect) : Completion A :=
  r.1.1.
Definition state_of {A} (r : Completion A * AppState * list Effect) : AppState :=
  r.1.2.
Definition effects_of {A} (r : Completion A * AppState * list Effect) : list Effect :=
  r.2.

(** ** JavaScript library functions the handlers call *)

(** Truthiness of what [Map.get] returns for a boolean-valued map:
    [undefined] and [false] are falsy. *)
Definition truthy (v : option bool) : bool := default false v.

(** [s.includes(search)] *)
Fixpoint includes (s search : string) : bool :=
  if String.prefix search s then true
  else match s with
       | EmptyString => false
       | String _ s' => includes s' search
       end.

(** [clients.indexOf(ws)]: the first index holding the same object. *)
Fixpoint indexOf (clients : list WebSocket) (ws : WebSocket) : option nat :=
  match clients with
  | [] => None
  | c :: clients' =>
      if decide (ws_id c = ws_id ws) then Some 0
      else S <$> indexOf clients' ws
  end.

(** [buffer.toString('base64')]: RFC 4648 base64 with padding. *)
Definition base64_alphabet : string :=
  "ABCDEFGHIJKLMNOPQRSTUVWXYZabcdefghijklmnopqrstuvwxyz0123456789+/".

Definition base64_digit (n : N) : ascii :=
  default "="%char (String.get (N.to_nat n) base64_alphabet).

Fixpoint base64 (bytes : list byte) : string :=
  match bytes with
  | [] => ""
  | [a] =>
      let n := Byte.to_N a in
      String (base64_digit (n / 4))
        (String (base64_digit ((n mod 4) * 16)) "==")
  | [a; b] =>
      let n := (Byte.to_N a * 256 + Byte.to_N b)%N in
      String (base64_digit (n / 1024))
        (String (base64_digit ((n / 16) mod 64))
          (String (base64_digit ((n mod 16) * 4)) "="))
  | a :: b :: c :: rest =>
      let n := (Byte.to_N a * 65536 + Byte.to_N b * 256 + Byte.to_N c)%N in
      String (base64_digit (n / 262144))
        (String (base64_digit ((n / 4096) mod 64))
          (String (base64_digit ((n / 64) mod 64))
            (String (base64_digit (n mod 64)) (base64 rest))))
  end.

(** The JSON values [broadcastPhoto] builds: strings, integers and objects
    (own properties in insertion order). *)
#[warnings="-register-all"]
Inductive JSON :=
  | JString (s : string)
  | JNumber (z : Z)
  | JObject (properties : list (string * JSON)).

Definition hex_digit (n : N) : ascii :=
  default "0"%char (String.get (N.to_nat n) "0123456789abcdef").

Definition backslash : ascii := "092"%char.

(** [QuoteJSONString] on one code unit (the texts at hand are ASCII). *)
Definition quote_char (c : ascii) : string :=
  let n := N_of_ascii c in
  if (n =? 8)%N then String backslash "b"
  else if (n =? 9)%N then String backslash "t"
  else if (n =? 10)%N then String backslash "n"
  else if (n =? 12)%N then String backslash "f"
  else if (n =? 13)%N then String backslash "r"
  else if (n =? 34)%N then String backslash (String c "")
  else if (n =? 92)%N then String backslash (String c "")
  else if (n <? 32)%N then
    String backslash
      ("u00" +:+ String (hex_digit (n / 16)) (String (hex_digit (n mod 16)) ""))
  else String c "".

Fixpoint quote_chars (s : string) : string :=
  match s with
  | EmptyString => ""
  | String c s' => quote_char c +:+ quote_chars s'
  end.

Definition double_quote : string := String "034"%char "".

Definition quote (s : string) : string :=
  double_quote +:+ quote_chars s +:+ double_quote.

(** [Number::toString] on an integer (below 10^21 in magnitude, as every
    [Date] value and byte count is). *)
Definition decimal (z : Z) : string := NilEmpty.string_of_int (Z.to_int z).

(** [JSON.stringify(value)] with no replacer and no indentation. *)
Fixpoint JSON_stringify (v : JSON) : string :=
  match v with
  | JString s => quote s
  | JNumber z => decimal z
  | JObject properties =>
      let fix members (ps : list (string * JSON)) : string :=
        match ps with
        | [] => ""
        | [(k, x)] => quote k +:+ ":" +:+ JSON_stringify x
        | (k, x) :: ps' =>
            quote k +:+ ":" +:+ JSON_stringify x +:+ "," +:+ members ps'
        end
      in "{" +:+ members properties +:+ "}"
  end.

(** ** The WebSocket registry and the broadcast *)

(** The ['connection'] handler of the WebSocket server. *)
Definition on_connection (ws : WebSocket) : M unit :=
  has ← gets (λ s, activeStreams s !! "general");
  (if has is None
   then modify (set_activeStreams <["general" := []]>)
   else ret tt);;
  modify (set_activeStreams
            (λ m, <["general" := default [] (m !! "general") ++ [ws]]> m)).

Definition removeWebSocket (streamId : string) (ws : WebSocket) : M unit :=
  clients ← gets (λ s, activeStreams s !! streamId);
  match clients with
  | Some clients =>
      match indexOf clients ws with
      | Some index =>
          (* clients.splice(index, 1), on the array the map holds *)
          modify (set_activeStreams <[streamId := delete index clients]>)
      | None => ret tt
      end
  | None => ret tt
  end.

(** [array.forEach(callback)] on an array that lives in the state and that
    the callback may change: the length is read once, the element at index
    [k] is read when the loop reaches [k], and an index that is no longer in
    the array is skipped. *)
Fixpoint forEach_from (array : AppState → list WebSocket)
    (callback : WebSocket → M unit) (remaining k : nat) : M unit :=
  match remaining with
  | 0 => ret tt
  | S remaining' =>
      O ← gets array;
      (match O !! k with
       | Some ws => callback ws
       | None => ret tt
       end);;
      forEach_from array callback remaining' (S k)
  end.

Definition forEach (array : AppState → list WebSocket)
    (callback : WebSocket → M unit) : M unit :=
  O ← gets array;
  forEach_from array callback (length O) 0.

(** [ws.send(message)] *)
Definition ws_send (ws : WebSocket) (message : string) : M unit :=
  if send_throws ws then throw (mkJSError (Some "send failed"))
  else emit (WsSend (ws_id ws) message).

(** The array [broadcastPhoto] iterates over: the one registered under
    ['general'], or a fresh empty one. *)
Definition general_clients (s : AppState) : list WebSocket :=
  default [] (activeStreams s !! "general").

Definition broadcastPhoto (photo : StoredPhoto.t) : M unit :=
  let base64Data := base64 (StoredPhoto.buffer photo) in
  let message := JSON_stringify (JObject [
    ("type", JString "photo");
    ("data", JString base64Data);
    ("mimeType", JString (StoredPhoto.mimeType photo));
    ("timestamp", JNumber (StoredPhoto.timestamp photo));
    ("size", JNumber (StoredPhoto.size photo))
  ]) in
  forEach general_clients (λ ws,
    if decide (readyState ws = OPEN) then
      try_catch (ws_send ws message)
        (λ error, removeWebSocket "general" ws)
    else ret tt).

(** ** The photo cache *)

(** [cachePhoto] up to its first [await]: the cache update and the
    broadcast.  What follows in the source only writes the photo to disk. *)
Definition cachePhoto (photo : PhotoData.t) (userId : string) : M unit :=
  let cachedPhoto := StoredPhoto.mk
    (PhotoData.requestId photo)
    (PhotoData.buffer photo)
    (PhotoData.timestamp photo)
    userId
    (PhotoData.mimeType photo)
    (PhotoData.filename photo)
    (PhotoData.size photo) in
  modify (set_photos <[userId := cachedPhoto]>);;
  modify (set_latestPhotoTimestamp
            <[userId := StoredPhoto.timestamp cachedPhoto]>);;
  broadcastPhoto cachedPhoto.

(** ** The capture coordinator *)

(** How the promise of [requestPhoto()] settles. *)
Inductive Settled (A : Type) :=
  | Resolved (a : A)
  | Rejected (e : JSError).
Arguments Resolved {A} a.
Arguments Rejected {A} e.

Definition await {A} (p : Settled A) : M A :=
  match p with
  | Resolved a => ret a
  | Rejected e => throw e
  end.

(** [error.message && (error.message.includes('WebSocket not connected')
     || error.message.includes('CLOSED'))] *)
Definition is_disconnection (error : JSError) : bool :=
  match message error with
  | Some m => includes m "WebSocket not connected" || includes m "CLOSED"
  | None => false
  end.

(** [takePhotoAsync] runs in two steps.  The call itself issues
    [session.camera.requestPhoto()] and suspends at the [await]. *)
Definition takePhotoAsync (userId : string) : M unit :=
  emit (RequestPhoto userId).

(** When the promise settles, the function resumes inside its [try]. *)
Definition takePhotoAsync_resume (userId : string)
    (settled : Settled PhotoData.t) : M unit :=
  try_finally
    (try_catch
       (photo ← await settled;
        unawaited (cachePhoto photo userId))
       (λ error,
          if is_disconnection error
          then modify (set_isStreamingPhotos <[userId := false]>)
          else ret tt))
    (modify (set_activeRequests <[userId := false]>)).

Inductive PressType := short | long.

(** [onSession]: the initial state of the user.  [now] is [Date.now()]. *)
Definition onSession (userId : string) (now : Z) : M unit :=
  modify (set_isStreamingPhotos <[userId := false]>);;
  modify (set_nextPhotoTime <[userId := now]>).

(** The button handler [onSession] registers. *)
Definition onButtonPress (userId : string) (pressType : PressType) : M unit :=
  match pressType with
  | long =>
      streaming ← gets (λ s, isStreamingPhotos s !! userId);
      modify (set_isStreamingPhotos <[userId := negb (truthy streaming)]>)
  | _ =>
      emit (ShowTextWall userId "Button pressed, about to take photo");;
      active ← gets (λ s, activeRequests s !! userId);
      if negb (truthy active) then
        modify (set_activeRequests <[userId := true]>);;
        takePhotoAsync userId
      else ret tt
  end.

(** The callback [onSession] hands to [setInterval]; [now] and [now'] are
    the two readings of [Date.now()]. *)
Definition onInterval (userId : string) (now now' : Z) : M unit :=
  streaming ← gets (λ s, isStreamingPhotos s !! userId);
  next ← gets (λ s, nextPhotoTime s !! userId);
  if truthy streaming && (default 0 next <? now)%Z then
    try_catch
      (modify (set_nextPhotoTime <[userId := (now' + 2000)%Z]>);;
       active ← gets (λ s, activeRequests s !! userId);
       if negb (truthy active) then
         modify (set_activeRequests <[userId := true]>);;
         takePhotoAsync userId
       else ret tt)
      (λ error, ret tt)
  else ret tt.

Definition onStop (userId : string) : M unit :=
  modify (set_isStreamingPhotos <[userId := false]>);;
  modify (set_nextPhotoTime (delete userId));;
  modify (set_activeRequests (delete userId)).

(** ** The query interface *)

Inductive Response :=
  | NotAuthenticated                       (* 401 *)
  | NoPhotoAvailable                       (* 404 of /api/latest-photo *)
  | PhotoNotFound                          (* 404 of /api/photo/:requestId *)
  | LatestPhoto (requestId : string) (timestamp : Z)
      (hasPhoto isStreaming : bool)
  | PhotoBytes (contentType : string) (body : list byte)
  | Toggled (isStreaming : bool) (message : string).

(** [!userId] on the [authUserId] of a request: [undefined] and the empty
    string are falsy. *)
Definition authenticated (authUserId : option string) : option string :=
  match authUserId with
  | Some "" => None
  | o => o
  end.

Definition api_latest_photo (authUserId : option string) : M Response :=
  match authenticated authUserId with
  | None => ret NotAuthenticated
  | Some userId =>
      photo ← gets (λ s, photos s !! userId);
      match photo with
      | None => ret NoPhotoAvailable
      | Some photo =>
          streaming ← gets (λ s, isStreamingPhotos s !! userId);
          ret (LatestPhoto (StoredPhoto.requestId photo)
                 (StoredPhoto.timestamp photo) true (truthy streaming))
      end
  end.

Definition api_photo (authUserId : option string) (requestId : string)
    : M Response :=
  match authenticated authUserId with
  | None => ret NotAuthenticated
  | Some userId =>
      photo ← gets (λ s, photos s !! userId);
      match photo with
      | None => ret PhotoNotFound
      | Some photo =>
          if decide (StoredPhoto.requestId photo = requestId)
          then ret (PhotoBytes (StoredPhoto.mimeType photo)
                      (StoredPhoto.buffer photo))
          else ret PhotoNotFound
      end
  end.

Definition api_toggle_streaming (authUserId : option string) : M Response :=
  match authenticated authUserId with
  | None => ret NotAuthenticated
  | Some userId =>
      streaming ← gets (λ s, isStreamingPhotos s !! userId);
      let currentState := truthy streaming in
      modify (set_isStreamingPhotos <[userId := negb currentState]>);;
      ret (Toggled (negb currentState)
             (if negb currentState then "Streaming started"
              else "Streaming stopped"))
  end.

(** ** The wire format *)

(** The broadcast envelope as the wire format gives it: one JSON object with
    the members [type], [data], [mimeType], [timestamp] and [size], in this
    order, the data being the base64 text between double quotes. *)
Definition wire_envelope (bytes : list byte) (mimeType : string)
    (timestamp size : Z) : string :=
  "{" +:+ quote "type" +:+ ":" +:+ quote "photo" +:+ ","
      +:+ quote "data" +:+ ":"
      +:+ double_quote +:+ base64 bytes +:+ double_quote +:+ ","
      +:+ quote "mimeType" +:+ ":" +:+ quote mimeType +:+ ","
      +:+ quote "timestamp" +:+ ":" +:+ decimal timestamp +:+ ","
      +:+ quote "size" +:+ ":" +:+ decimal size +:+ "}".

(** ** Runs of the server *)

(** What the runtime delivers to the application, one handler at a time. *)
Inductive Event :=
  | SessionStart (userId : string) (now : Z)
      (* onSession; now is Date.now() *)
  | ButtonPress (userId : string) (pressType : PressType)
      (* the handler given to session.events.onButtonPress *)
  | Interval (userId : string) (now now' : Z)
      (* the setInterval callback, which onStop does not clear *)
  | PhotoSettled (userId : string) (settled : Settled PhotoData.t)
      (* the promise awaited in takePhotoAsync settles *)
  | SessionStop (userId : string)
      (* onStop *)
  | ToggleStreaming (authUserId : option string)
      (* POST /api/toggle-streaming *)
  | Connection (ws : WebSocket)
      (* wss.on('connection') *)
  | SocketClosed (ws : WebSocket)
      (* ws.on('close') *)
  | SocketError (ws : WebSocket)
      (* ws.on('error') *)
  | ReadyStateChanged (id : nat) (state : ReadyState).
      (* the socket changes state; no handler of the application runs *)

(** A socket changes its [readyState]: every reference to the socket object
    shows the new state. *)
Definition set_readyState (id : nat) (state : ReadyState) (ws : WebSocket)
    : WebSocket :=
  if decide (ws_id ws = id) then mkWebSocket id state (send_throws ws) else ws.

Definition readyState_changes (id : nat) (state : ReadyState)
    (streams : gmap string (list WebSocket)) : gmap string (list WebSocket) :=
  (λ clients : list WebSocket, set_readyState id state <$> clients)
    <$> streams.

Definition handle (ev : Event) : M unit :=
  match ev with
  | SessionStart userId now => onSession userId now
  | ButtonPress userId pressType => onButtonPress userId pressType
  | Interval userId now now' => onInterval userId now now'
  | PhotoSettled userId settled => takePhotoAsync_resume userId settled
  | SessionStop userId => onStop userId
  | ToggleStreaming authUserId => api_toggle_streaming authUserId;; ret tt
  | Connection ws => on_connection ws
  | SocketClosed ws => removeWebSocket "general" ws
  | SocketError ws => removeWebSocket "general" ws
  | ReadyStateChanged id state =>
      modify (set_activeStreams (readyState_changes id state))
  end.

(** A run: the state after the events and everything emitted on the way.
    A handler that throws leaves the state it reached. *)
Fixpoint run (evs : list Event) (s : AppState) : AppState * list Effect :=
  match evs with
  | [] => (s, [])
  | ev :: evs' =>
      let '(_, s1, o1) := handle ev s in
      let '(s2, o2) := run evs' s1 in
      (s2, o1 ++ o2)
  end.

(** The capture requests [out] issues for [userId]. *)
Definition requested (userId : string) (out : list Effect) : nat :=
  length (filter (λ e, e = RequestPhoto userId) out).

Definition is_stop (userId : string) (ev : Event) : Prop :=
  match ev with
  | SessionStop u => u = userId
  | _ => False
  end.

(** The capture requests of [userId] that are in flight, counted along a
    run: each [RequestPhoto] emitted adds one, each settled promise takes
    one away.  [None]: the event settles a request that was never issued,
    which no runtime does. *)
Definition pending_after (userId : string) (ev : Event) (s : AppState)
    (pending : nat) : option nat :=
  let issued := requested userId (effects_of (handle ev s)) in
  match ev with
  | PhotoSettled u _ =>
      if decide (u = userId) then
        match pending with
        | 0 => None
        | S pending' => Some (pending' + issued)
        end
      else Some (pending + issued)
  | _ => Some (pending + issued)
  end.

Fixpoint in_flight (userId : string) (evs : list Event) (s : AppState)
    (pending : nat) : option nat :=
  match evs with
  | [] => Some pending
  | ev :: evs' =>
      match pending_after userId ev s pending with
      | Some pending' =>
          in_flight userId evs' (state_of (handle ev s)) pending'
      | None => None
      end
  end.

(** No session of [userId] is stopped while a capture of that user is in
    flight. *)
Fixpoint stops_when_idle (userId : string) (evs : list Event) (s : AppState)
    (pending : nat) : Prop :=
  match evs with
  | [] => True
  | ev :: evs' =>
      (is_stop userId ev → pending = 0) ∧
      match pending_after userId ev s pending with
      | Some pending' =>
          stops_when_idle userId evs' (state_of (handle ev s)) pending'
      | None => True
      end
  end.

(** The events that can turn streaming on for [userId]. *)
Definition toggles_streaming (userId : string) (ev : Event) : Prop :=
  match ev with
  | ButtonPress u long => u = userId
  | ToggleStreaming authUserId => authUserId = Some userId
  | _ => False
  end.

(** ** Notions used in the statements *)

(** A handler is [safe] for an invariant [I] on states and a class [Q] of
    effects when it returns normally, keeps [I] and emits only [Q]. *)
Definition safe (I : AppState → Prop) (Q : Effect → Prop) (m : M unit) : Prop :=
  ∀ s, I s →
    completion (m s) = Normal tt ∧ I (state_of (m s)) ∧ Forall Q (effects_of (m s)).

(** Everything in the state but the subscriber registry. *)
Definition coordinator (s : AppState) :=
  (photos s, latestPhotoTimestamp s, isStreamingPhotos s, nextPhotoTime s,
   activeRequests s, streamingMode s).

Definition is_send (message : string) (e : Effect) : Prop :=
  ∃ ws, e = WsSend ws message.

Definition plain (c : ascii) : bool :=
  String.eqb (quote_char c) (String c "").

Definition envelope_of (photo : StoredPhoto.t) : string :=
  wire_envelope (StoredPhoto.buffer photo) (StoredPhoto.mimeType photo)
    (StoredPhoto.timestamp photo) (StoredPhoto.size photo).

Definition press_text : string := "Button pressed, about to take photo".

(** The two ways to toggle streaming: the long press and the endpoint. *)
Inductive ToggleVia := via_long_press | via_endpoint.

Definition toggle (via : ToggleVia) (userId : string) : M (option Response) :=
  match via with
  | via_long_press => onButtonPress userId long;; ret None
  | via_endpoint =>
      response ← api_toggle_streaming (Some userId);
      ret (Some response)
  end.

(** The streaming flag as every reader of the map sees it. *)
Definition streaming (s : AppState) (userId : string) : bool :=
  truthy (isStreamingPhotos s !! userId).

(** [PhotoData] as [cachePhoto] stores it for [userId]. *)
Definition stored (photo : PhotoData.t) (userId : string) : StoredPhoto.t :=
  StoredPhoto.mk (PhotoData.requestId photo) (PhotoData.buffer photo)
    (PhotoData.timestamp photo) userId (PhotoData.mimeType photo)
    (PhotoData.filename photo) (PhotoData.size photo).

(** Within a session the in-flight flag of a user counts the requests
    that user has pending. *)
Definition flag_counts (userId : string) (s : AppState) (pending : nat) : Prop :=
  pending = if truthy (activeRequests s !! userId) then 1 else 0.

(** Every cached photo sits under the user id it carries. *)
Definition keyed_by_user (s : AppState) : Prop :=
  ∀ k photo, photos s !! k = Some photo → StoredPhoto.userId photo = k.

(** What a response says about the photo itself: the streaming flag that
    [/api/latest-photo] adds is not part of it. *)
Definition photo_part (response : Completion Response) : Completion Response :=
  match response with
  | Normal (LatestPhoto requestId timestamp hasPhoto _) =>
      Normal (LatestPhoto requestId timestamp hasPhoto false)
  | other => other
  end.

(** The callback [broadcastPhoto] hands to [forEach], for a given message
    text. *)
Definition broadcast_callback (message : string) (ws : WebSocket) : M unit :=
  if decide (readyState ws = OPEN) then
    try_catch (ws_send ws message) (λ error, removeWebSocket "general" ws)
  else ret tt.

(** One send of [message] to each of [clients], in order. *)
Definition sends (message : string) (clients : list WebSocket) : list Effect :=
  (λ ws, WsSend (ws_id ws) message) <$> clients.

(** A socket that takes a message without failing. *)
Definition accepts (ws : WebSocket) : Prop :=
  readyState ws = OPEN ∧ send_throws ws = false.

(** A socket on which the broadcast removes nothing. *)
Definition quiet (ws : WebSocket) : Prop :=
  readyState ws = OPEN → send_throws ws = false.

(** A text given with a single quote wherever it holds a double quote
    (character 34): a way to write down, character by character, a text
    that holds double quotes and no single quote. *)
Fixpoint with_double_quotes (s : string) : string :=
  match s with
  | EmptyString => EmptyString
  | String c s' =>
      String (if Ascii.eqb c "'"%char then "034"%char else c)
        (with_double_quotes s')
  end.

(** A character that stands for itself between the double quotes of a JSON
    string (RFC 8259, section 7): not a control character, not the double
    quote, not the backslash. *)
Definition needs_no_escape (c : ascii) : bool :=
  let n := N_of_ascii c in
  (32 <=? n)%N && negb (n =? 34)%N && negb (n =? 92)%N.

(** The escapes of [JSON.stringify] as ECMAScript lists them for
    [QuoteJSONString], written out: the text that stands for each of the
    control characters 0 to 31, in this order; the double quote and the
    backslash take a backslash before them; every other character stands
    for itself. *)
Definition escape_table : list string :=
  [ "\u0000"; "\u0001"; "\u0002"; "\u0003"; "\u0004"; "\u0005"; "\u0006"; "\u0007";
    "\b"; "\t"; "\n"; "\u000b"; "\f"; "\r"; "\u000e"; "\u000f";
    "\u0010"; "\u0011"; "\u0012"; "\u0013"; "\u0014"; "\u0015"; "\u0016"; "\u0017";
    "\u0018"; "\u0019"; "\u001a"; "\u001b"; "\u001c"; "\u001d"; "\u001e"; "\u001f" ].

Definition escape_of (c : ascii) : string :=
  if Ascii.eqb c "034" then String "092" (String "034" "")
  else if Ascii.eqb c "092" then String "092" (String "092" "")
  else default (String c "") (escape_table !! N.to_nat (N_of_ascii c)).

Fixpoint escaped_text (s : string) : string :=
  match s with
  | EmptyString => EmptyString
  | String c s' => escape_of c +:+ escaped_text s'
  end.

(** Sample data for the worked examples. *)
Definition sample_photo : StoredPhoto.t :=
  StoredPhoto.mk "req-1" [x66; x6f; x6f]%byte 1700000000000 "u"
    "image/jpeg" "photo.jpg" 3.

Definition socket_a : WebSocket := mkWebSocket 1 OPEN false.
Definition socket_b : WebSocket := mkWebSocket 2 OPEN false.
Definition socket_c : WebSocket := mkWebSocket 3 OPEN false.
Definition failing_a : WebSocket := mkWebSocket 1 OPEN true.
Definition closing_b : WebSocket := mkWebSocket 2 CLOSING false.
Definition closed_b : WebSocket := mkWebSocket 2 CLOSED false.

(** Three subscribers connect, then the second one leaves the [OPEN]
    state; its ['close'] event has not been delivered yet. *)
Definition second_not_open (state : ReadyState) : list Event :=
  [Connection socket_a; Connection socket_b; Connection socket_c;
   ReadyStateChanged 2 state].

(** Reading base64 text back (RFC 4648, table 1, padding required), to say
    that [base64] loses nothing: the upper-case letters stand for 0 to 25,
    the lower-case letters for 26 to 51, the digits for 52 to 61, the plus
    sign for 62 and the slash for 63. *)
Definition base64_value (c : ascii) : option N :=
  let n := N_of_ascii c in
  if (65 <=? n)%N && (n <=? 90)%N then Some (n - 65)%N
  else if (97 <=? n)%N && (n <=? 122)%N then Some (n - 71)%N
  else if (48 <=? n)%N && (n <=? 57)%N then Some (n + 4)%N
  else if (n =? 43)%N then Some 62%N
  else if (n =? 47)%N then Some 63%N
  else None.

Fixpoint base64_decode (text : string) : option (list byte) :=
  match text with
  | EmptyString => Some []
  | String c1 (String c2 (String c3 (String c4 rest))) =>
      v1 ← base64_value c1;
      v2 ← base64_value c2;
      if Ascii.eqb c3 "=" then
        if Ascii.eqb c4 "=" && String.eqb rest "" then
          a ← Byte.of_N ((v1 * 64 + v2) / 16);
          Some [a]
        else None
      else
        v3 ← base64_value c3;
        if Ascii.eqb c4 "=" then
          if String.eqb rest "" then
            let m := ((v1 * 64 + v2) * 64 + v3)%N in
            a ← Byte.of_N (m / 1024);
            b ← Byte.of_N ((m / 4) mod 256);
            Some [a; b]
          else None
        else
          v4 ← base64_value c4;
          let m := (((v1 * 64 + v2) * 64 + v3) * 64 + v4)%N in
          a ← Byte.of_N (m / 65536);
          b ← Byte.of_N ((m / 256) mod 256);
          c ← Byte.of_N (m mod 256);
          bytes ← base64_decode rest;
          Some (a :: b :: c :: bytes)
  | _ => None
  end.

(** Reading a JSON string back (RFC 8259, section 7), to say that [quote]
    loses nothing: the text starts with a double quote; a backslash
    introduces one of the two-character escapes or [u] and four hexadecimal
    digits; a control character may not stand unescaped; the closing double
    quote ends the string.  The result is the string read and the text that
    follows it. *)
Definition hex_value (c : ascii) : option N :=
  let n := N_of_ascii c in
  if (48 <=? n)%N && (n <=? 57)%N then Some (n - 48)%N
  else if (97 <=? n)%N && (n <=? 102)%N then Some (n - 87)%N
  else if (65 <=? n)%N && (n <=? 70)%N then Some (n - 55)%N
  else None.

Definition unescape (e : ascii) : option ascii :=
  if Ascii.eqb e "034" then Some "034"%char
  else if Ascii.eqb e "092" then Some "092"%char
  else if Ascii.eqb e "/" then Some "/"%char
  else if Ascii.eqb e "b" then Some "008"%char
  else if Ascii.eqb e "f" then Some "012"%char
  else if Ascii.eqb e "n" then Some "010"%char
  else if Ascii.eqb e "r" then Some "013"%char
  else if Ascii.eqb e "t" then Some "009"%char
  else None.

Definition push (c : ascii) (r : option (string * string)) :
    option (string * string) :=
  '(s, rest) ← r; Some (String c s, rest).

Fixpoint read_chars (text : string) : option (string * string) :=
  match text with
  | EmptyString => None
  | String c text' =>
      if Ascii.eqb c "034" then Some (EmptyString, text')
      else if Ascii.eqb c "092" then
        match text' with
        | EmptyString => None
        | String e text'' =>
            if Ascii.eqb e "u" then
              match text'' with
              | String a (String b (String h (String l text3))) =>
                  a ← hex_value a; b ← hex_value b;
                  h ← hex_value h; l ← hex_value l;
                  let n := (((a * 16 + b) * 16 + h) * 16 + l)%N in
                  if (n <? 256)%N then push (ascii_of_N n) (read_chars text3)
                  else None
              | _ => None
              end
            else c' ← unescape e; push c' (read_chars text'')
        end
      else if (N_of_ascii c <? 32)%N then None
      else push c (read_chars text')
  end.

Definition read_string (text : string) : option (string * string) :=
  match text with
  | EmptyString => None
  | String c text' => if Ascii.eqb c "034" then read_chars text' else None
  end.

(** Reading an integer back (RFC 8259, section 6, without fraction and
    exponent): an optional minus sign and at least one decimal digit. *)
Definition is_digit (c : ascii) : bool :=
  ((48 <=? N_of_ascii c) && (N_of_ascii c <=? 57))%N.

Fixpoint read_while (p : ascii → bool) (text : string) : string * string :=
  match text with
  | EmptyString => (EmptyString, EmptyString)
  | String c text' =>
      if p c then
        let '(taken, rest) := read_while p text' in (String c taken, rest)
      else (EmptyString, text)
  end.

Definition read_digits (text : string) : option (Decimal.uint * string) :=
  let '(digits, rest) := read_while is_digit text in
  match digits with
  | EmptyString => None
  | _ => d ← NilEmpty.uint_of_string digits; Some (d, rest)
  end.

Definition read_number (text : string) : option (Z * string) :=
  match text with
  | String "-" text' =>
      '(d, rest) ← read_digits text'; Some (Z.of_int (Decimal.Neg d), rest)
  | _ =>
      '(d, rest) ← read_digits text; Some (Z.of_int (Decimal.Pos d), rest)
  end.

(** Reading an envelope back: the object with the members [type], [data],
    [mimeType], [timestamp] and [size], in this order, with no white space
    and nothing before, between or after; [type] is [photo] and [data] is
    base64 text.  The result is the bytes, the MIME type, the timestamp and
    the size. *)
Definition expect (c : ascii) (text : string) : option string :=
  match text with
  | EmptyString => None
  | String c' text' => if Ascii.eqb c c' then Some text' else None
  end.

Definition read_name (name : string) (text : string) : option string :=
  '(k, text) ← read_string text;
  if String.eqb k name then expect ":" text else None.

Definition read_envelope (text : string) :
    option (list byte * string * Z * Z) :=
  text ← expect "{" text;
  text ← read_name "type" text;
  '(type, text) ← read_string text;
  text ← expect "," text;
  text ← read_name "data" text;
  '(data, text) ← read_string text;
  text ← expect "," text;
  text ← read_name "mimeType" text;
  '(mimeType, text) ← read_string text;
  text ← expect "," text;
  text ← read_name "timestamp" text;
  '(timestamp, text) ← read_number text;
  text ← expect "," text;
  text ← read_name "size" text;
  '(size, text) ← read_number text;
  text ← expect "}" text;
  bytes ← base64_decode data;
  if String.eqb type "photo" && String.eqb text "" then
    Some (bytes, mimeType, timestamp, size)
  else None.

(** A text before which a number ends: it does not go on with a digit. *)
Definition ends_number (rest : string) : Prop :=
  match rest with
  | EmptyString => True
  | String c _ => is_digit c = false
  end.

(** ** The root route and the file on disk *)

(** The loop of the root route over [this.photos.entries()], given in the
    order the [Map] yields them: the photo with the latest timestamp, among
    those with a timestamp above the initial [latestTimestamp = 0]. *)
Definition root_latest (entries : list (string * StoredPhoto.t))
    : option StoredPhoto.t * Z :=
  foldl (λ (acc : option StoredPhoto.t * Z) (entry : string * StoredPhoto.t),
           let '(latestPhoto, latestTimestamp) := acc in
           let photoTimestamp := StoredPhoto.timestamp entry.2 in
           if (latestTimestamp <? photoTimestamp)%Z
           then (Some entry.2, photoTimestamp)
           else (latestPhoto, latestTimestamp))
        (None, 0%Z) entries.

(** What the root page shows in its image container. *)
Inductive RootImage :=
  | StreamImage (src : string)      (* <img id="stream-image" src=...> *)
  | NoImage.                        (* "No images captured yet." *)

Definition root_image (entries : list (string * StoredPhoto.t)) : RootImage :=
  match (root_latest entries).1 with
  | Some latestPhoto =>
      StreamImage ("data:" +:+ StoredPhoto.mimeType latestPhoto +:+ ";base64,"
                   +:+ base64 (StoredPhoto.buffer latestPhoto))
  | None => NoImage
  end.

(** [s.split(separator)] for a one-character separator. *)
Fixpoint split (separator : ascii) (s : string) : list string :=
  match s with
  | EmptyString => [EmptyString]
  | String c s' =>
      if Ascii.eqb c separator then EmptyString :: split separator s'
      else match split separator s' with
           | piece :: pieces => String c piece :: pieces
           | [] => [String c EmptyString]
           end
  end.

(** [cachedPhoto.mimeType.split('/')[1] || 'jpg'] in [cachePhoto]. *)
Definition fileExt (mimeType : string) : string :=
  match split "/" mimeType !! 1 with
  | Some EmptyString | None => "jpg"
  | Some ext => ext
  end.

(** The file name [cachePhoto] joins to the photos directory:
    [`photo_${userId}_${timestamp}.${fileExt}`]. *)
Definition photo_file (userId : string) (photo : StoredPhoto.t) : string :=
  "photo_" +:+ userId +:+ "_" +:+ decimal (StoredPhoto.timestamp photo)
    +:+ "." +:+ fileExt (StoredPhoto.mimeType photo).

(** ** The viewer page (views/photo-viewer.ejs) *)

Module Viewer.

(** What the [content] element holds. *)
Inductive Content :=
  | Loading                    (* "Loading latest photo..." *)
  | NoPhotos                   (* "No photos taken yet. ..." *)
  | Photo (src : string)       (* <img class="photo" src=...> *)
  | LoadError.                 (* "Error loading photo. ..." *)

(** The script's variables and the part of the page it writes. *)
Record State := mkState {
  currentRequestId : option string;
  isStreaming : bool;
  button_active : bool;
  button_text : string;
  content : Content
}.

(** The page as served. *)
Definition loaded : State :=
  mkState None false false "Start Streaming" Loading.

(** How a [fetch] ends: it throws, or yields a response with a status and,
    when the body parses as the JSON the endpoint sends, the fields read
    from it. *)
Inductive Fetched (A : Type) :=
  | NetworkError
  | Answer (status : nat) (json : option A).
Arguments NetworkError {A}.
Arguments Answer {A} status json.

(** [response.ok] *)
Definition ok (status : nat) : bool := (200 <=? status) && (status <=? 299).

Definition updateStreamingUI (streaming : bool) (st : State) : State :=
  mkState (currentRequestId st) streaming streaming
    (if streaming then "Stop Streaming" else "Start Streaming")
    (content st).

Definition set_content (c : Content) (st : State) : State :=
  mkState (currentRequestId st) (isStreaming st) (button_active st)
    (button_text st) c.

(** [checkForNewPhoto], given how [fetch('/api/latest-photo')] ends; the
    JSON fields read are [requestId] and [isStreaming]. *)
Definition checkForNewPhoto (fetched : Fetched (string * bool)) (st : State)
    : State :=
  match fetched with
  | NetworkError => set_content LoadError st
  | Answer status json =>
      if status =? 404 then set_content NoPhotos st
      else if negb (ok status) then set_content LoadError st
      else match json with
           | None => set_content LoadError st
           | Some (requestId, streaming) =>
               let st := updateStreamingUI streaming st in
               if decide (Some requestId = currentRequestId st) then st
               else mkState (Some requestId) (isStreaming st)
                      (button_active st) (button_text st)
                      (Photo ("/api/photo/" +:+ requestId))
           end
  end.

(** [toggleStreaming], given how the POST to [/api/toggle-streaming] ends;
    the JSON field read is [isStreaming]. *)
Definition toggleStreaming (fetched : Fetched bool) (st : State) : State :=
  match fetched with
  | NetworkError => st
  | Answer status json =>
      if negb (ok status) then st
      else match json with
           | None => st
           | Some streaming => updateStreamingUI streaming st
           end
  end.

(** The polls of a page, one after the other. *)
Definition polls (fetches : list (Fetched (string * bool))) (st : State)
    : State :=
  foldl (λ st fetched, checkForNewPhoto fetched st) st fetches.

End Viewer.

(** What the endpoints put on the wire: the status code, and the JSON fields
    the viewer reads. *)
Definition latest_photo_answer (response : Completion Response)
    : Viewer.Fetched (string * bool) :=
  match response with
  | Normal (LatestPhoto requestId _ _ isStreaming) =>
      Viewer.Answer 200 (Some (requestId, isStreaming))
  | Normal NotAuthenticated => Viewer.Answer 401 None
  | Normal _ => Viewer.Answer 404 None
  | Throw _ => Viewer.Answer 500 None
  end.

Definition toggle_answer (response : Completion Response)
    : Viewer.Fetched bool :=
  match response with
  | Normal (Toggled isStreaming _) => Viewer.Answer 200 (Some isStreaming)
  | Normal NotAuthenticated => Viewer.Answer 401 None
  | Normal _ => Viewer.Answer 404 None
  | Throw _ => Viewer.Answer 500 None
  end.

(** ** Notions used in the further statements *)

(** The sockets of a run are distinct objects: a connection brings a socket
    that is not registered yet. *)
Fixpoint fresh_connections (evs : list Event) (s : AppState) : Prop :=
  match evs with
  | [] => True
  | ev :: evs' =>
      match ev with
      | Connection ws => ws_id ws ∉ ws_id <$> general_clients s
      | _ => True
      end ∧ fresh_connections evs' (state_of (handle ev s))
  end.

(** The events that write [nextPhotoTime] of [userId]. *)
Definition moves_nextPhotoTime (userId : string) (ev : Event) : Prop :=
  match ev with
  | SessionStart u _ | SessionStop u | Interval u _ _ => u = userId
  | _ => False
  end.

(** The user an event is about, if any. *)
Definition user_of (ev : Event) : option string :=
  match ev with
  | SessionStart u _ | ButtonPress u _ | Interval u _ _ | PhotoSettled u _
  | SessionStop u => Some u
  | ToggleStreaming authUserId => authenticated authUserId
  | _ => None
  end.

(** The entries of [userId] in the five per-user maps. *)
Definition user_entries (s : AppState) (userId : string) :=
  (photos s !! userId, latestPhotoTimestamp s !! userId,
   isStreamingPhotos s !! userId, nextPhotoTime s !! userId,
   activeRequests s !! userId).

(** [search] occurs in [s]. *)
Definition substring (search s : string) : Prop :=
  ∃ before after, s = before +:+ search +:+ after.

(** * Properties *)

(** ** The monad *)

Lemma bind_run {A B} (m : M A) (k : A → M B) s :
  (m ≫= k) s =
  match m s with
  | (Normal a, s1, o1) => let '(c, s2, o2) := k a s1 in (c, s2, o1 ++ o2)
  | (Throw e, s1, o1) => (Throw e, s1, o1)
  end.
Proof. reflexivity. Qed.

Lemma gets_bind {A B} (f : AppState → A) (k : A → M B) s :
  (gets f ≫= k) s = k (f s) s.
Proof.
  rewrite bind_run. unfold gets.
  by destruct (k (f s) s) as [[c s2] o2].
Qed.

Lemma ret_bind {A B} (a : A) (k : A → M B) s :
  (ret a ≫= k) s = k a s.
Proof.
  rewrite bind_run. unfold ret.
  by destruct (k a s) as [[c s2] o2].
Qed.

Lemma modify_bind {B} (f : AppState → AppState) (k : unit → M B) s :
  (modify f ≫= k) s = k tt (f s).
Proof.
  rewrite bind_run. unfold modify.
  by destruct (k tt (f s)) as [[c s2] o2].
Qed.

Lemma emit_bind {B} (e : Effect) (k : unit → M B) s :
  (emit e ≫= k) s =
  let '(c, s2, o2) := k tt s in (c, s2, e :: o2).
Proof. reflexivity. Qed.

Ltac step_M :=
  repeat first
    [ rewrite gets_bind
    | rewrite modify_bind
    | rewrite ret_bind
    | rewrite emit_bind ].

Ltac unfold_result := unfold completion, state_of, effects_of in *; simpl in *.

Lemma safe_ret I Q : safe I Q (mret tt).
Proof. intros s Hs. repeat split; [done | constructor]. Qed.

Lemma safe_bind I Q (m : M unit) (k : unit → M unit) :
  safe I Q m → (∀ x, safe I Q (k x)) → safe I Q (m ≫= k).
Proof.
  intros Hm Hk s Hs. rewrite bind_run.
  destruct (Hm s Hs) as (Hc & HI & HQ).
  destruct (m s) as [[c s1] o1]. unfold_result. subst c.
  destruct (Hk tt s1 HI) as (Hc' & HI' & HQ').
  destruct (k tt s1) as [[c' s2] o2]. unfold_result.
  repeat split; [done | done | by apply Forall_app].
Qed.

Lemma safe_forEach_from I Q array callback :
  (∀ ws, safe I Q (callback ws)) →
  ∀ remaining k, safe I Q (forEach_from array callback remaining k).
Proof.
  intros Hcb remaining.
  induction remaining as [|n IH]; intros k; simpl.
  - apply safe_ret.
  - intros s Hs. rewrite gets_bind.
    apply safe_bind; [| intros _; apply IH | exact Hs].
    destruct (array s !! k); [apply Hcb | apply safe_ret].
Qed.

(** ** The broadcast touches the registry only *)

Lemma removeWebSocket_run streamId ws s :
  removeWebSocket streamId ws s =
  (Normal tt,
   match activeStreams s !! streamId with
   | Some clients =>
       match indexOf clients ws with
       | Some index => set_activeStreams <[streamId := delete index clients]> s
       | None => s
       end
   | None => s
   end, []).
Proof.
  unfold removeWebSocket. rewrite gets_bind.
  destruct (activeStreams s !! streamId) as [clients|]; [|done].
  by destruct (indexOf clients ws).
Qed.

Lemma removeWebSocket_safe c Q streamId ws :
  safe (λ s, coordinator s = c) Q (removeWebSocket streamId ws).
Proof.
  intros s Hs. rewrite removeWebSocket_run. unfold_result.
  repeat split; [|constructor].
  destruct (activeStreams s !! streamId) as [clients|]; [|done].
  by destruct (indexOf clients ws).
Qed.

Lemma broadcast_callback_safe c message ws :
  safe (λ s, coordinator s = c) (is_send message)
    (broadcast_callback message ws).
Proof.
  unfold broadcast_callback.
  destruct (decide _); [|apply safe_ret].
  intros s Hs. unfold try_catch, ws_send.
  destruct (send_throws ws); simpl.
  - rewrite removeWebSocket_run. unfold_result.
    repeat split; [|constructor].
    destruct (activeStreams s !! "general") as [clients|]; [|done].
    by destruct (indexOf clients ws).
  - unfold_result. repeat split; [done|].
    constructor; [by eexists | constructor].
Qed.

(** ** Base64 text needs no escaping *)

Lemma get_plain s :
  forallb plain (list_ascii_of_string s) = true →
  ∀ n c, String.get n s = Some c → plain c = true.
Proof.
  induction s as [|a s IH]; simpl; intros H n c Hc; [done|].
  apply andb_prop in H as [Ha Hs].
  destruct n as [|n]; [by inversion Hc; subst | by eapply IH].
Qed.

Lemma base64_digit_plain n :
  quote_char (base64_digit n) = String (base64_digit n) "".
Proof.
  apply String.eqb_eq. change (plain (base64_digit n) = true).
  unfold base64_digit.
  destruct (String.get (N.to_nat n) base64_alphabet) as [c|] eqn:E; [|done].
  by eapply (get_plain base64_alphabet).
Qed.

Lemma quote_chars_base64 bytes : quote_chars (base64 bytes) = base64 bytes.
Proof.
  assert (H : ∀ n (l : list byte), length l < n →
            quote_chars (base64 l) = base64 l).
  { induction n as [|n IH]; intros l Hl; [lia|].
    destruct l as [|a [|b [|c rest]]]; simpl; [done|..];
      rewrite ?base64_digit_plain; simpl; [done|done|].
    rewrite IH; [done|]. simpl in Hl. lia. }
  apply (H (S (length bytes))). lia.
Qed.

(** ** Base64 text reads back as the bytes *)

Ltac euclid := zify; Z.to_euclidean_division_equations; lia.

Lemma base64_digit_value d :
  (d < 64)%N →
  base64_value (base64_digit d) = Some d ∧
  Ascii.eqb (base64_digit d) "=" = false.
Proof.
  intros Hd.
  assert (Hall : Forall (λ d, base64_value (base64_digit d) = Some d ∧
                              Ascii.eqb (base64_digit d) "=" = false)
                   (N.of_nat <$> seq 0 64)).
  { repeat (constructor; [by vm_compute|]). constructor. }
  rewrite Forall_forall in Hall. apply Hall.
  apply list_elem_of_fmap. exists (N.to_nat d).
  split; [lia | apply elem_of_seq; lia].
Qed.

Lemma to_N_lt a : (Byte.to_N a < 256)%N.
Proof. pose proof (Byte.to_N_bounded a). lia. Qed.

Lemma of_N_eq n a : n = Byte.to_N a → Byte.of_N n = Some a.
Proof. intros ->. apply Byte.of_to_N. Qed.

Lemma base64_decode_base64 bytes : base64_decode (base64 bytes) = Some bytes.
Proof.
  assert (H : ∀ n (l : list byte), length l < n →
            base64_decode (base64 l) = Some l).
  { induction n as [|n IH]; intros l Hl; [lia|].
    destruct l as [|a [|b [|c rest]]]; [done|..].
    - pose proof (to_N_lt a).
      cbn [base64 base64_decode].
      destruct (base64_digit_value (Byte.to_N a / 4)) as [-> _]; [euclid|].
      destruct (base64_digit_value (Byte.to_N a mod 4 * 16)) as [-> _];
        [euclid|].
      cbn. rewrite (of_N_eq _ a); [done | euclid].
    - pose proof (to_N_lt a). pose proof (to_N_lt b).
      cbn [base64 base64_decode].
      remember (Byte.to_N a * 256 + Byte.to_N b)%N as m eqn:Hm.
      destruct (base64_digit_value (m / 1024)) as [-> _]; [euclid|].
      destruct (base64_digit_value ((m / 16) mod 64)) as [-> _]; [euclid|].
      destruct (base64_digit_value (m mod 16 * 4)) as [-> ->]; [euclid|].
      cbn.
      replace (((m / 1024 * 64 + (m / 16) mod 64) * 64 + m mod 16 * 4))%N
        with (m * 4)%N by euclid.
      rewrite (of_N_eq (m * 4 / 1024) a) by euclid. cbn.
      by rewrite (of_N_eq ((m * 4 / 4) mod 256) b) by euclid.
    - pose proof (to_N_lt a). pose proof (to_N_lt b). pose proof (to_N_lt c).
      cbn [base64 base64_decode].
      remember (Byte.to_N a * 65536 + Byte.to_N b * 256 + Byte.to_N c)%N
        as m eqn:Hm.
      destruct (base64_digit_value (m / 262144)) as [-> _]; [euclid|].
      destruct (base64_digit_value ((m / 4096) mod 64)) as [-> _]; [euclid|].
      destruct (base64_digit_value ((m / 64) mod 64)) as [-> ->]; [euclid|].
      destruct (base64_digit_value (m mod 64)) as [-> ->]; [euclid|].
      cbn.
      replace ((((m / 262144 * 64 + (m / 4096) mod 64) * 64
                 + (m / 64) mod 64) * 64 + m mod 64))%N
        with m by euclid.
      rewrite (of_N_eq (m / 65536) a) by euclid. cbn.
      rewrite (of_N_eq ((m / 256) mod 256) b) by euclid. cbn.
      rewrite (of_N_eq (m mod 256) c) by euclid. cbn.
      rewrite IH by (simpl in Hl; lia). done. }
  apply (H (S (length bytes))). lia.
Qed.

Lemma append_assoc (a b c : string) : (a +:+ b) +:+ c = a +:+ (b +:+ c).
Proof.
  induction a as [|x a IH]; [done|].
  change (String x ((a +:+ b) +:+ c) = String x (a +:+ b +:+ c)).
  by rewrite IH.
Qed.

Lemma quote_base64 bytes :
  quote (base64 bytes) = double_quote +:+ base64 bytes +:+ double_quote.
Proof. unfold quote. by rewrite quote_chars_base64. Qed.

(** What [broadcastPhoto] hands to [JSON.stringify] comes out as the wire
    envelope. *)
Lemma stringify_envelope bytes mimeType timestamp size :
  JSON_stringify (JObject [
    ("type", JString "photo");
    ("data", JString (base64 bytes));
    ("mimeType", JString mimeType);
    ("timestamp", JNumber timestamp);
    ("size", JNumber size)
  ]) = wire_envelope bytes mimeType timestamp size.
Proof.
  unfold wire_envelope. cbn [JSON_stringify].
  rewrite quote_base64. by rewrite !append_assoc.
Qed.

(** ** The envelope reads back *)

(** What [quote] writes for one character reads back as this character. *)
Lemma read_chars_quote_char c tail :
  read_chars (quote_char c +:+ tail) = push c (read_chars tail).
Proof.
  destruct c as [[] [] [] [] [] [] [] []]; reflexivity.
Qed.

Lemma read_chars_quote_chars s rest :
  read_chars (quote_chars s +:+ double_quote +:+ rest) = Some (s, rest).
Proof.
  induction s as [|c s IH]; [done|].
  cbn [quote_chars]. by rewrite append_assoc, read_chars_quote_char, IH.
Qed.

(** [quote] loses nothing: its text reads back as the string, whatever
    follows. *)
Lemma read_string_quote s rest :
  read_string (quote s +:+ rest) = Some (s, rest).
Proof.
  unfold quote. rewrite !append_assoc.
  change (read_chars (quote_chars s +:+ double_quote +:+ rest)
          = Some (s, rest)).
  apply read_chars_quote_chars.
Qed.

Lemma expect_app c rest : expect c (String c "" +:+ rest) = Some rest.
Proof.
  change (expect c (String c rest) = Some rest).
  unfold expect. by rewrite Ascii.eqb_refl.
Qed.

Lemma read_name_quote name rest :
  read_name name (quote name +:+ ":" +:+ rest) = Some rest.
Proof.
  unfold read_name. rewrite read_string_quote. simpl.
  rewrite String.eqb_refl. apply (expect_app ":").
Qed.

Lemma read_while_digits d rest :
  ends_number rest →
  read_while is_digit (NilEmpty.string_of_uint d +:+ rest)
  = (NilEmpty.string_of_uint d, rest).
Proof.
  intros Hrest.
  induction d as [|d IH|d IH|d IH|d IH|d IH|d IH|d IH|d IH|d IH|d IH];
    try (cbn [NilEmpty.string_of_uint];
         match goal with
         | |- read_while _ (String ?c ?a +:+ ?r) = _ =>
             change (read_while is_digit (String c (a +:+ r))
                     = (String c a, r))
         end;
         cbn [read_while]; rewrite IH; reflexivity).
  change (read_while is_digit rest = ("", rest)).
  destruct rest as [|c rest]; [done|]. simpl in Hrest. simpl. by rewrite Hrest.
Qed.

Lemma read_digits_uint d rest :
  d ≠ Decimal.Nil → ends_number rest →
  read_digits (NilEmpty.string_of_uint d +:+ rest) = Some (d, rest).
Proof.
  intros Hd Hrest. unfold read_digits.
  rewrite read_while_digits by done.
  rewrite NilEmpty.usu. by destruct d.
Qed.

(** [decimal] loses nothing: its text reads back as the integer, before
    anything that is not a digit. *)
Lemma read_number_decimal z rest :
  ends_number rest →
  read_number (decimal z +:+ rest) = Some (z, rest).
Proof.
  intros Hrest. unfold decimal.
  assert (Hz : match Z.to_int z with
               | Decimal.Pos d | Decimal.Neg d => d ≠ Decimal.Nil
               end).
  { destruct z; simpl; [done|apply Unsigned.to_uint_nonnil..]. }
  rewrite <- (DecimalZ.of_to z) at 2.
  destruct (Z.to_int z) as [d|d]; cbn [NilEmpty.string_of_int].
  - pose proof (read_digits_uint d rest Hz Hrest) as H.
    destruct d; try done; cbn [NilEmpty.string_of_uint] in *;
      match goal with
      | |- read_number (String ?c ?a +:+ ?r) = _ =>
          change (String c a +:+ r) with (String c (a +:+ r)) in *
      end; cbn [read_number]; cbv beta iota; rewrite H; reflexivity.
  - change (read_number (String "-" (NilEmpty.string_of_uint d +:+ rest))
            = Some (Z.of_int (Decimal.Neg d), rest)).
    cbn [read_number]. by rewrite read_digits_uint.
Qed.

(** What [broadcastPhoto] hands to [JSON.stringify] reads back as the
    bytes, the MIME type, the timestamp and the size it was built from. *)
Lemma read_envelope_stringify bytes mimeType timestamp size :
  read_envelope (JSON_stringify (JObject [
    ("type", JString "photo");
    ("data", JString (base64 bytes));
    ("mimeType", JString mimeType);
    ("timestamp", JNumber timestamp);
    ("size", JNumber size)
  ])) = Some (bytes, mimeType, timestamp, size).
Proof.
  cbn [JSON_stringify]. rewrite !append_assoc. unfold read_envelope.
  change (decimal size +:+ "}") with (decimal size +:+ "}" +:+ "").
  rewrite (expect_app "{"). cbn [mbind option_bind].
  repeat first
    [ rewrite read_name_quote
    | rewrite read_string_quote
    | rewrite (expect_app ",")
    | rewrite (expect_app "}")
    | rewrite read_number_decimal by done
    | progress cbn [mbind option_bind] ].
  rewrite base64_decode_base64. reflexivity.
Qed.

Lemma quote_char_unescaped c :
  needs_no_escape c = true → quote_char c = String c "".
Proof.
  destruct c as [[] [] [] [] [] [] [] []]; (reflexivity || discriminate).
Qed.

Lemma quote_chars_unescaped s :
  forallb needs_no_escape (list_ascii_of_string s) = true →
  quote_chars s = s.
Proof.
  induction s as [|c s IH]; [done|].
  cbn [list_ascii_of_string forallb quote_chars].
  intros [Hc Hs]%andb_prop.
  by rewrite (quote_char_unescaped c Hc), (IH Hs).
Qed.

Lemma quote_char_escape_of c : quote_char c = escape_of c.
Proof.
  destruct c as [[] [] [] [] [] [] [] []]; reflexivity.
Qed.

Lemma quote_chars_escaped_text s : quote_chars s = escaped_text s.
Proof.
  induction s as [|c s IH]; [done|].
  cbn [quote_chars escaped_text]. by rewrite quote_char_escape_of, IH.
Qed.

(** The text of what [broadcastPhoto] hands to [JSON.stringify], character
    by character. *)
Lemma stringify_envelope_escaped bytes mimeType timestamp size :
  JSON_stringify (JObject [
    ("type", JString "photo");
    ("data", JString (base64 bytes));
    ("mimeType", JString mimeType);
    ("timestamp", JNumber timestamp);
    ("size", JNumber size)
  ]) =
    with_double_quotes "{'type':'photo','data':'" +:+ base64 bytes
    +:+ with_double_quotes "','mimeType':'" +:+ escaped_text mimeType
    +:+ with_double_quotes "','timestamp':" +:+ decimal timestamp
    +:+ with_double_quotes ",'size':" +:+ decimal size +:+ "}".
Proof.
  cbn [JSON_stringify]. rewrite quote_base64.
  unfold quote at 5.
  rewrite quote_chars_escaped_text, !append_assoc.
  reflexivity.
Qed.

(** The text of what [broadcastPhoto] hands to [JSON.stringify], character
    by character, when the MIME type needs no escape. *)
Lemma stringify_envelope_text bytes mimeType timestamp size :
  forallb needs_no_escape (list_ascii_of_string mimeType) = true →
  JSON_stringify (JObject [
    ("type", JString "photo");
    ("data", JString (base64 bytes));
    ("mimeType", JString mimeType);
    ("timestamp", JNumber timestamp);
    ("size", JNumber size)
  ]) =
    with_double_quotes "{'type':'photo','data':'" +:+ base64 bytes
    +:+ with_double_quotes "','mimeType':'" +:+ mimeType
    +:+ with_double_quotes "','timestamp':" +:+ decimal timestamp
    +:+ with_double_quotes ",'size':" +:+ decimal size +:+ "}".
Proof.
  intros Hplain. cbn [JSON_stringify]. rewrite quote_base64.
  unfold quote at 5.
  rewrite (quote_chars_unescaped _ Hplain), !append_assoc.
  reflexivity.
Qed.

Example includes_inside :
  includes "Error: socket CLOSED by peer" "CLOSED" = true.
Proof. reflexivity. Qed.

Example includes_missing : includes "Request timed out" "CLOSED" = false.
Proof. reflexivity. Qed.

Example includes_empty_search : includes "" "" = true.
Proof. reflexivity. Qed.

(** A double quote, a backslash, a line feed and a letter, between double
    quotes and escaped; the text is given by its bytes. *)
Example quote_escapes :
  list_byte_of_string
    (quote (String "034"%char (String backslash (String "010"%char "a"))))
  = [x22; x5c; x22; x5c; x5c; x5c; x6e; x61; x22]%byte.
Proof. reflexivity. Qed.

(** A control character without a short escape is written with [u] and
    four lower-case hexadecimal digits. *)
Example quote_control :
  list_byte_of_string (quote (String "031"%char ""))
  = [x22; x5c; x75; x30; x30; x31; x66; x22]%byte.
Proof. reflexivity. Qed.

Example escaped_text_bytes :
  list_byte_of_string
    (escaped_text
       (String "034"%char (String "092"%char (String "011"%char
          (String "127"%char "a/b")))))
  = [x5c; x22; x5c; x5c; x5c; x75; x30; x30; x30; x62; x7f; x61; x2f;
     x62]%byte.
Proof. reflexivity. Qed.

Example quote_text : quote "image/jpeg" = with_double_quotes "'image/jpeg'".
Proof. reflexivity. Qed.

Example with_double_quotes_bytes :
  list_byte_of_string (with_double_quotes "{'a':1}")
  = [x7b; x22; x61; x22; x3a; x31; x7d]%byte.
Proof. reflexivity. Qed.

Example read_string_wants_double_quotes : read_string "'a'" = None.
Proof. reflexivity. Qed.

Example read_string_wants_escapes :
  read_string (String "034"%char (String "010"%char (String "034"%char "")))
  = None.
Proof. reflexivity. Qed.

Example read_string_wants_end : read_string (String "034"%char "abc") = None.
Proof. reflexivity. Qed.

Example read_string_escapes :
  read_string
    (String "034"%char
       (String backslash
          ("u0041" +:+ String backslash ("n" +:+ String backslash
             (String "034"%char (String "034"%char ",x"))))))
  = Some (String "A" (String "010"%char (String "034"%char "")), ",x").
Proof. reflexivity. Qed.

Example read_number_negative : read_number "-12," = Some ((-12)%Z, ",").
Proof. reflexivity. Qed.

Example read_number_wants_digits :
  read_number "-" = None ∧ read_number "" = None ∧ read_number "x1" = None.
Proof. by repeat split. Qed.

(** The envelope of the sample photo, byte by byte. *)
Example sample_envelope_bytes :
  list_byte_of_string (envelope_of sample_photo)
  = [x7b; x22; x74; x79; x70; x65; x22; x3a; x22; x70; x68; x6f; x74; x6f;
     x22; x2c; x22; x64; x61; x74; x61; x22; x3a; x22; x5a; x6d; x39; x76;
     x22; x2c; x22; x6d; x69; x6d; x65; x54; x79; x70; x65; x22; x3a; x22;
     x69; x6d; x61; x67; x65; x2f; x6a; x70; x65; x67; x22; x2c; x22; x74;
     x69; x6d; x65; x73; x74; x61; x6d; x70; x22; x3a; x31; x37; x30; x30;
     x30; x30; x30; x30; x30; x30; x30; x30; x30; x2c; x22; x73; x69; x7a;
     x65; x22; x3a; x33; x7d]%byte.
Proof. reflexivity. Qed.

Example read_envelope_sample :
  read_envelope (with_double_quotes
    "{'type':'photo','data':'Zm9v','mimeType':'image/jpeg','timestamp':1700000000000,'size':3}")
  = Some ([x66; x6f; x6f]%byte, "image/jpeg", 1700000000000%Z, 3%Z).
Proof. reflexivity. Qed.

Example read_envelope_wants_five_members :
  read_envelope (with_double_quotes
    "{'type':'photo','data':'Zm9v','mimeType':'image/jpeg','timestamp':1700000000000,'size':3,'id':1}")
  = None ∧
  read_envelope (with_double_quotes
    "{'type':'photo','data':'Zm9v','mimeType':'image/jpeg','timestamp':1700000000000}")
  = None.
Proof. by split. Qed.

Example read_envelope_wants_the_order :
  read_envelope (with_double_quotes
    "{'data':'Zm9v','type':'photo','mimeType':'image/jpeg','timestamp':1700000000000,'size':3}")
  = None.
Proof. reflexivity. Qed.

Example read_envelope_wants_double_quotes :
  read_envelope
    "{'type':'photo','data':'Zm9v','mimeType':'image/jpeg','timestamp':1700000000000,'size':3}"
  = None.
Proof. reflexivity. Qed.

Example read_envelope_wants_no_space :
  read_envelope (with_double_quotes
    "{ 'type':'photo','data':'Zm9v','mimeType':'image/jpeg','timestamp':1700000000000,'size':3}")
  = None.
Proof. reflexivity. Qed.

Example decimal_negative : decimal (-12) = "-12".
Proof. reflexivity. Qed.

Example decimal_zero : decimal 0 = "0".
Proof. reflexivity. Qed.

Example base64_f : base64 [x66]%byte = "Zg==".
Proof. reflexivity. Qed.

Example base64_fo : base64 [x66; x6f]%byte = "Zm8=".
Proof. reflexivity. Qed.

Example base64_foobar :
  base64 [x66; x6f; x6f; x62; x61; x72]%byte = "Zm9vYmFy".
Proof. reflexivity. Qed.

Example base64_high_bits : base64 [xfb; xff; xfe]%byte = "+//+".
Proof. reflexivity. Qed.

Example base64_decode_high_bits :
  base64_decode "+//+" = Some [xfb; xff; xfe]%byte.
Proof. reflexivity. Qed.

Example base64_decode_wants_the_alphabet :
  base64_decode "-__-" = None ∧ base64_decode "Zg" = None.
Proof. by split. Qed.

(** ** What a broadcast does *)

(** The broadcast is the loop over the registry with the wire envelope of
    the photo as message. *)
Lemma broadcastPhoto_unfold photo :
  broadcastPhoto photo =
  forEach general_clients (broadcast_callback (envelope_of photo)).
Proof.
  unfold broadcastPhoto, envelope_of. by rewrite stringify_envelope.
Qed.

Lemma broadcastPhoto_safe c photo :
  safe (λ s, coordinator s = c) (is_send (envelope_of photo))
    (broadcastPhoto photo).
Proof.
  rewrite broadcastPhoto_unfold. intros s Hs.
  unfold forEach. rewrite gets_bind.
  apply (safe_forEach_from (λ s, coordinator s = c)
           (is_send (envelope_of photo))); [|done].
  intros ws. apply broadcast_callback_safe.
Qed.

Lemma cachePhoto_run photo userId s :
  let cachedPhoto := StoredPhoto.mk (PhotoData.requestId photo)
    (PhotoData.buffer photo) (PhotoData.timestamp photo) userId
    (PhotoData.mimeType photo) (PhotoData.filename photo)
    (PhotoData.size photo) in
  cachePhoto photo userId s =
  broadcastPhoto cachedPhoto
    (set_latestPhotoTimestamp <[userId := PhotoData.timestamp photo]>
       (set_photos <[userId := cachedPhoto]> s)).
Proof. intros cachedPhoto. unfold cachePhoto. by step_M. Qed.

(** ** The completion of a capture *)

Lemma takePhotoAsync_resume_rejected userId e s :
  takePhotoAsync_resume userId (Rejected e) s =
  (Normal tt,
   set_activeRequests <[userId := false]>
     (if is_disconnection e
      then set_isStreamingPhotos <[userId := false]> s
      else s),
   []).
Proof.
  unfold takePhotoAsync_resume, try_finally, try_catch. simpl.
  by destruct (is_disconnection e).
Qed.

Lemma takePhotoAsync_resume_resolved userId photo s :
  takePhotoAsync_resume userId (Resolved photo) s =
  (Normal tt,
   set_activeRequests <[userId := false]>
     (state_of (cachePhoto photo userId s)),
   effects_of (cachePhoto photo userId s) ++ []).
Proof.
  unfold takePhotoAsync_resume, try_finally, try_catch, unawaited, await.
  rewrite ret_bind.
  by destruct (cachePhoto photo userId s) as [[c s1] o1].
Qed.

Lemma takePhotoAsync_resume_returns userId settled s :
  completion (takePhotoAsync_resume userId settled s) = Normal tt.
Proof.
  destruct settled as [photo|e].
  - by rewrite takePhotoAsync_resume_resolved.
  - by rewrite takePhotoAsync_resume_rejected.
Qed.

(** C1. Whatever the outcome of the capture call (the promise resolves, or
    it is rejected with any error), when [takePhotoAsync] returns the
    in-flight flag of the user is [false]. *)
Theorem takePhotoAsync_clears_activeRequests :
  ∀ (userId : string) (settled : Settled PhotoData.t) (s : AppState),
    completion (takePhotoAsync_resume userId settled s) = Normal tt ∧
    activeRequests (state_of (takePhotoAsync_resume userId settled s)) !! userId
      = Some false.
Proof.
  intros userId [photo|e] s.
  - rewrite takePhotoAsync_resume_resolved. unfold_result.
    split; [done | apply lookup_insert_eq].
  - rewrite takePhotoAsync_resume_rejected. unfold_result.
    split; [done | apply lookup_insert_eq].
Qed.

(** ** The periodic tick *)

Lemma onInterval_run userId now now' s :
  onInterval userId now now' s =
  if truthy (isStreamingPhotos s !! userId)
     && (default 0 (nextPhotoTime s !! userId) <? now)%Z
  then
    if truthy (activeRequests s !! userId)
    then (Normal tt, set_nextPhotoTime <[userId := (now' + 2000)%Z]> s, [])
    else (Normal tt,
          set_activeRequests <[userId := true]>
            (set_nextPhotoTime <[userId := (now' + 2000)%Z]> s),
          [RequestPhoto userId])
  else (Normal tt, s, []).
Proof.
  unfold onInterval. step_M.
  destruct (truthy (isStreamingPhotos s !! userId) && _); [|done].
  unfold try_catch. step_M. simpl.
  destruct (truthy (activeRequests s !! userId)); simpl; [done|].
  by step_M.
Qed.

(** C3, as the source has it.  A tick advances [nextPhotoTime] to the
    second clock reading plus 2000 exactly when streaming is on and the
    first clock reading is past [nextPhotoTime]; whether a capture is in
    flight plays no part in that.  It issues a capture, and raises the
    in-flight flag, exactly when moreover no capture is in flight.  A tick
    that does neither leaves the whole state as it was. *)
Theorem onInterval_advances_then_checks_in_flight :
  ∀ (userId : string) (now now' : Z) (s : AppState),
    let streaming := truthy (isStreamingPhotos s !! userId) in
    let elapsed := (default 0 (nextPhotoTime s !! userId) <? now)%Z in
    let inFlight := truthy (activeRequests s !! userId) in
    let r := onInterval userId now now' s in
    completion r = Normal tt ∧
    state_of r =
      (if streaming && elapsed then
         set_activeRequests
           (if inFlight then id else <[userId := true]>)
           (set_nextPhotoTime <[userId := (now' + 2000)%Z]> s)
       else s) ∧
    effects_of r =
      (if streaming && elapsed && negb inFlight
       then [RequestPhoto userId] else []).
Proof.
  intros userId now now' s; cbv zeta. rewrite onInterval_run.
  destruct (truthy (isStreamingPhotos s !! userId)); simpl; [|done].
  destruct (default 0 (nextPhotoTime s !! userId) <? now)%Z; simpl; [|done].
  by destruct (truthy (activeRequests s !! userId)).
Qed.

(** C3, as stated, fails: a user with streaming on, [nextPhotoTime = 0] and
    a capture in flight gets a tick at time 5000, and [nextPhotoTime] moves
    to 7000 although nothing is issued. *)
Lemma interval_in_flight_moves_nextPhotoTime :
  let s := (run [SessionStart "u" 0; ButtonPress "u" long;
                 ButtonPress "u" short] initial).1 in
  let r := onInterval "u" 5000 5000 s in
  isStreamingPhotos s !! "u" = Some true ∧
  activeRequests s !! "u" = Some true ∧
  nextPhotoTime s !! "u" = Some 0%Z ∧
  effects_of r = [] ∧
  nextPhotoTime (state_of r) !! "u" = Some 7000%Z ∧
  nextPhotoTime (state_of r) !! "u" ≠ nextPhotoTime s !! "u".
Proof. vm_compute. repeat split; congruence. Qed.

(** ** Button presses and the streaming toggle *)

Lemma onButtonPress_short_run userId s :
  onButtonPress userId short s =
  if truthy (activeRequests s !! userId)
  then (Normal tt, s, [ShowTextWall userId press_text])
  else (Normal tt, set_activeRequests <[userId := true]> s,
        [ShowTextWall userId press_text; RequestPhoto userId]).
Proof.
  unfold onButtonPress. rewrite emit_bind. step_M.
  destruct (truthy (activeRequests s !! userId)); simpl; [done|].
  by step_M.
Qed.

Lemma onButtonPress_long_run userId s :
  onButtonPress userId long s =
  (Normal tt,
   set_isStreamingPhotos
     <[userId := negb (truthy (isStreamingPhotos s !! userId))]> s,
   []).
Proof. unfold onButtonPress. by step_M. Qed.

Lemma api_toggle_streaming_run userId s :
  userId ≠ "" →
  api_toggle_streaming (Some userId) s =
  let currentState := truthy (isStreamingPhotos s !! userId) in
  (Normal (Toggled (negb currentState)
             (if negb currentState then "Streaming started"
              else "Streaming stopped")),
   set_isStreamingPhotos <[userId := negb currentState]> s,
   []).
Proof.
  intros Hu. unfold api_toggle_streaming, authenticated.
  destruct userId as [|a u]; [done|]. by step_M.
Qed.

Lemma toggle_run via userId s :
  userId ≠ "" →
  toggle via userId s =
  (Normal (match via with
           | via_long_press => None
           | via_endpoint =>
               Some (Toggled (negb (streaming s userId))
                       (if negb (streaming s userId)
                        then "Streaming started" else "Streaming stopped"))
           end),
   set_isStreamingPhotos <[userId := negb (streaming s userId)]> s,
   []).
Proof.
  intros Hu. destruct via; unfold toggle; rewrite bind_run.
  - by rewrite onButtonPress_long_run.
  - by rewrite (api_toggle_streaming_run _ _ Hu).
Qed.

Lemma set_isStreamingPhotos_back userId (b : bool) s :
  isStreamingPhotos s !! userId = Some b →
  set_isStreamingPhotos <[userId := b]>
    (set_isStreamingPhotos <[userId := negb b]> s) = s.
Proof.
  intros Hb. destruct s as [ph lt st nx ac ws md]; simpl in *.
  unfold set_isStreamingPhotos; simpl. f_equal.
  rewrite insert_insert_eq. by apply insert_id.
Qed.

(** C7. Either way of toggling (long press or endpoint) records the
    negation of the flag the user had, triggers nothing else, and the
    endpoint answers with that negation; two toggles in a row, by any
    combination of the two ways, give the flag back its original value, and
    where the user had an entry the whole state is as before. *)
Theorem toggle_twice_restores :
  ∀ (via1 via2 : ToggleVia) (userId : string) (s : AppState),
    userId ≠ "" →
    let r1 := toggle via1 userId s in
    let r2 := toggle via2 userId (state_of r1) in
    isStreamingPhotos (state_of r1) !! userId = Some (negb (streaming s userId)) ∧
    effects_of r1 = [] ∧
    (via1 = via_endpoint →
     ∃ text, completion r1 =
             Normal (Some (Toggled (negb (streaming s userId)) text))) ∧
    isStreamingPhotos (state_of r2) !! userId = Some (streaming s userId) ∧
    (∀ b, isStreamingPhotos s !! userId = Some b → state_of r2 = s).
Proof.
  intros via1 via2 userId s Hu; cbv zeta.
  rewrite (toggle_run via1 _ _ Hu). unfold_result.
  rewrite (toggle_run via2 _ _ Hu). unfold_result.
  assert (Hs1 : streaming (set_isStreamingPhotos
                  <[userId := negb (streaming s userId)]> s) userId
                = negb (streaming s userId)).
  { unfold streaming at 1. simpl. by rewrite lookup_insert_eq. }
  rewrite Hs1, negb_involutive.
  split; [apply lookup_insert_eq|]. split; [done|].
  split; [intros ->; by eexists|].
  split; [apply lookup_insert_eq|].
  intros b Hb. assert (streaming s userId = b) as ->.
  { unfold streaming. by rewrite Hb. }
  by apply set_isStreamingPhotos_back.
Qed.

Lemma toggle_twice_restores_witness :
  let s := (run [SessionStart "u" 0; ButtonPress "u" long] initial).1 in
  isStreamingPhotos s !! "u" = Some true ∧
  isStreamingPhotos
    (state_of (toggle via_endpoint "u" s)) !! "u" = Some false ∧
  state_of (toggle via_long_press "u"
              (state_of (toggle via_endpoint "u" s))) = s.
Proof.
  cbv zeta.
  pose proof (toggle_twice_restores via_endpoint via_long_press "u"
    (run [SessionStart "u" 0; ButtonPress "u" long] initial).1
    ltac:(discriminate)) as H.
  cbv zeta in H. destruct H as (H1 & _ & _ & _ & H5).
  split; [by vm_compute|]. split; [exact H1|].
  apply (H5 true). by vm_compute.
Defined.

(** ** Session start and stop, the cache *)

Lemma onSession_run userId now s :
  onSession userId now s =
  (Normal tt,
   set_nextPhotoTime <[userId := now]>
     (set_isStreamingPhotos <[userId := false]> s),
   []).
Proof. unfold onSession. by step_M. Qed.

Lemma onStop_run userId s :
  onStop userId s =
  (Normal tt,
   set_activeRequests (delete userId)
     (set_nextPhotoTime (delete userId)
        (set_isStreamingPhotos <[userId := false]> s)),
   []).
Proof. unfold onStop. by step_M. Qed.

Lemma on_connection_safe c Q ws :
  safe (λ s, coordinator s = c) Q (on_connection ws).
Proof.
  intros s Hs. unfold on_connection. rewrite gets_bind.
  destruct (activeStreams s !! "general"); step_M; unfold_result;
    (repeat split; [done | constructor]).
Qed.

Lemma cachePhoto_safe photo userId s :
  let s1 := set_latestPhotoTimestamp <[userId := PhotoData.timestamp photo]>
              (set_photos <[userId := stored photo userId]> s) in
  completion (cachePhoto photo userId s) = Normal tt ∧
  coordinator (state_of (cachePhoto photo userId s)) = coordinator s1 ∧
  Forall (is_send (envelope_of (stored photo userId)))
    (effects_of (cachePhoto photo userId s)).
Proof.
  intros s1. rewrite cachePhoto_run.
  by apply (broadcastPhoto_safe (coordinator s1)).
Qed.

Lemma coordinator_photos s s' :
  coordinator s = coordinator s' → photos s = photos s'.
Proof. unfold coordinator. congruence. Qed.

Lemma coordinator_isStreamingPhotos s s' :
  coordinator s = coordinator s' → isStreamingPhotos s = isStreamingPhotos s'.
Proof. unfold coordinator. congruence. Qed.

Lemma coordinator_nextPhotoTime s s' :
  coordinator s = coordinator s' → nextPhotoTime s = nextPhotoTime s'.
Proof. unfold coordinator. congruence. Qed.

Lemma coordinator_activeRequests s s' :
  coordinator s = coordinator s' → activeRequests s = activeRequests s'.
Proof. unfold coordinator. congruence. Qed.

Lemma coordinator_latestPhotoTimestamp s s' :
  coordinator s = coordinator s' →
  latestPhotoTimestamp s = latestPhotoTimestamp s'.
Proof. unfold coordinator. congruence. Qed.

(** What each event does to everything but the registry. *)
Lemma handle_coordinator ev s :
  coordinator (state_of (handle ev s)) =
  coordinator
    match ev with
    | SessionStart u now =>
        set_nextPhotoTime <[u := now]>
          (set_isStreamingPhotos <[u := false]> s)
    | ButtonPress u long =>
        set_isStreamingPhotos <[u := negb (streaming s u)]> s
    | ButtonPress u short =>
        if truthy (activeRequests s !! u) then s
        else set_activeRequests <[u := true]> s
    | Interval u now now' =>
        if streaming s u && (default 0 (nextPhotoTime s !! u) <? now)%Z then
          set_activeRequests
            (if truthy (activeRequests s !! u) then id else <[u := true]>)
            (set_nextPhotoTime <[u := (now' + 2000)%Z]> s)
        else s
    | PhotoSettled u (Resolved photo) =>
        set_activeRequests <[u := false]>
          (set_latestPhotoTimestamp <[u := PhotoData.timestamp photo]>
             (set_photos <[u := stored photo u]> s))
    | PhotoSettled u (Rejected e) =>
        set_activeRequests <[u := false]>
          (if is_disconnection e
           then set_isStreamingPhotos <[u := false]> s else s)
    | SessionStop u =>
        set_activeRequests (delete u)
          (set_nextPhotoTime (delete u)
             (set_isStreamingPhotos <[u := false]> s))
    | ToggleStreaming authUserId =>
        match authenticated authUserId with
        | Some u => set_isStreamingPhotos <[u := negb (streaming s u)]> s
        | None => s
        end
    | Connection _ | SocketClosed _ | SocketError _ => s
    | ReadyStateChanged id state =>
        set_activeStreams (readyState_changes id state) s
    end.
Proof.
  destruct ev as [u now|u [|]|u now now'|u [photo|e]|u|auth|ws|ws|ws|id st];
    unfold handle.
  - by rewrite onSession_run.
  - rewrite onButtonPress_short_run.
    by destruct (truthy (activeRequests s !! u)).
  - by rewrite onButtonPress_long_run.
  - rewrite onInterval_run. unfold streaming.
    destruct (truthy (isStreamingPhotos s !! u) && _); [|done].
    by destruct (truthy (activeRequests s !! u)).
  - rewrite takePhotoAsync_resume_resolved.
    destruct (cachePhoto_safe photo u s) as (_ & Hc & _).
    unfold coordinator in *. unfold_result. congruence.
  - by rewrite takePhotoAsync_resume_rejected.
  - by rewrite onStop_run.
  - rewrite bind_run. unfold api_toggle_streaming.
    destruct (authenticated auth) as [u|]; [|done].
    by step_M.
  - by destruct (on_connection_safe (coordinator s) (λ _, True) ws s eq_refl)
      as (_ & -> & _).
  - by destruct (removeWebSocket_safe (coordinator s) (λ _, True) "general"
                   ws s eq_refl) as (_ & -> & _).
  - by destruct (removeWebSocket_safe (coordinator s) (λ _, True) "general"
                   ws s eq_refl) as (_ & -> & _).
  - done.
Qed.

Lemma requested_sends message userId out :
  Forall (is_send message) out → requested userId out = 0.
Proof.
  unfold requested. induction 1 as [|e out [ws ->] _ IH]; [done|].
  rewrite filter_cons. by case_decide.
Qed.

Lemma requested_app userId out out' :
  requested userId (out ++ out') = requested userId out + requested userId out'.
Proof. unfold requested. by rewrite filter_app, length_app. Qed.

(** The capture requests an event issues for [userId]. *)
Lemma handle_requested userId ev s :
  requested userId (effects_of (handle ev s)) =
  match ev with
  | ButtonPress u short =>
      if decide (u = userId) then
        if truthy (activeRequests s !! u) then 0 else 1
      else 0
  | Interval u now now' =>
      if decide (u = userId) then
        if streaming s u && (default 0 (nextPhotoTime s !! u) <? now)%Z
           && negb (truthy (activeRequests s !! u))
        then 1 else 0
      else 0
  | _ => 0
  end.
Proof.
  destruct ev as [u now|u [|]|u now now'|u [photo|e]|u|auth|ws|ws|ws|id st];
    unfold handle.
  - by rewrite onSession_run.
  - rewrite onButtonPress_short_run. unfold requested.
    destruct (truthy (activeRequests s !! u)); unfold_result;
      rewrite ?filter_cons; repeat case_decide; simplify_eq; done.
  - by rewrite onButtonPress_long_run.
  - rewrite onInterval_run. unfold streaming, requested.
    destruct (truthy (isStreamingPhotos s !! u) && _); simpl;
      [|by case_decide].
    destruct (truthy (activeRequests s !! u)); unfold_result;
      rewrite ?filter_cons; repeat case_decide; simplify_eq; done.
  - rewrite takePhotoAsync_resume_resolved. unfold_result.
    destruct (cachePhoto_safe photo u s) as (_ & _ & Hq).
    rewrite app_nil_r. by eapply requested_sends.
  - by rewrite takePhotoAsync_resume_rejected.
  - by rewrite onStop_run.
  - rewrite bind_run. unfold api_toggle_streaming.
    destruct (authenticated auth) as [u|]; [|done].
    by step_M.
  - destruct (on_connection_safe (coordinator s) (is_send "") ws s eq_refl)
      as (_ & _ & Hq).
    by eapply requested_sends.
  - by rewrite removeWebSocket_run.
  - by rewrite removeWebSocket_run.
  - done.
Qed.

(** ** At most one capture in flight *)

Lemma handle_flag_counts userId ev s pending pending' :
  (is_stop userId ev → pending = 0) →
  flag_counts userId s pending →
  pending_after userId ev s pending = Some pending' →
  flag_counts userId (state_of (handle ev s)) pending'.
Proof.
  unfold flag_counts, pending_after. intros Hstop Hinv.
  rewrite handle_requested.
  rewrite (coordinator_activeRequests _ _ (handle_coordinator ev s)).
  destruct ev as [u now|u [|]|u now now'|u [photo|e]|u|auth|ws|ws|ws|id st];
    simpl in *; try (intros [= <-]; lia).
  - (* short press *)
    intros [= <-]. destruct (decide (u = userId)) as [->|Hne].
    + destruct (truthy (activeRequests s !! userId)) eqn:E; simpl;
        [rewrite E; lia|].
      rewrite lookup_insert_eq. simpl. lia.
    + destruct (truthy (activeRequests s !! u)); simpl;
        rewrite ?lookup_insert_ne by done; lia.
  - (* tick *)
    intros [= <-]. destruct (decide (u = userId)) as [->|Hne].
    + destruct (streaming s userId && _); simpl; [|lia].
      destruct (truthy (activeRequests s !! userId)) eqn:E; simpl;
        [rewrite E; lia|].
      rewrite lookup_insert_eq. simpl. lia.
    + destruct (streaming s u && _); simpl; [|lia].
      destruct (truthy (activeRequests s !! u)); simpl;
        rewrite ?lookup_insert_ne by done; lia.
  - (* the capture resolves *)
    destruct (decide (u = userId)) as [->|Hne].
    + destruct pending as [|p]; [done|]. intros [= <-].
      rewrite lookup_insert_eq. simpl.
      destruct (truthy (activeRequests s !! userId)); lia.
    + intros [= <-]. rewrite lookup_insert_ne by done. lia.
  - (* the capture is rejected *)
    destruct (decide (u = userId)) as [->|Hne].
    + destruct pending as [|p]; [done|]. intros [= <-].
      rewrite lookup_insert_eq. simpl.
      destruct (truthy (activeRequests s !! userId)); lia.
    + intros [= <-]. rewrite lookup_insert_ne by done.
      destruct (is_disconnection e); simpl; lia.
  - (* a session stops *)
    intros [= <-]. destruct (decide (u = userId)) as [->|Hne].
    + rewrite lookup_delete_eq. simpl. rewrite (Hstop eq_refl). lia.
    + rewrite lookup_delete_ne by done. lia.
  - intros [= <-]. destruct (authenticated auth); simpl; lia.
Qed.

Lemma in_flight_bounded userId evs :
  ∀ s pending n,
    stops_when_idle userId evs s pending →
    flag_counts userId s pending →
    in_flight userId evs s pending = Some n →
    n ≤ 1.
Proof.
  induction evs as [|ev evs IH]; intros s pending n Hevs Hinv Hn.
  - simpl in Hn. inversion Hn; subst. unfold flag_counts in Hinv.
    destruct (truthy _); lia.
  - simpl in Hevs, Hn. destruct Hevs as [Hstop Hevs].
    destruct (pending_after userId ev s pending) as [pending'|] eqn:E;
      [|done].
    eapply IH; [exact Hevs| |exact Hn].
    by eapply handle_flag_counts.
Qed.

(** C6, as the source has it.  A short press with no capture in flight
    raises the flag and issues one request; with a capture in flight it
    changes nothing and issues none.  Along a run of the server in which no
    session of the user is stopped while a capture of that user is pending,
    at most one capture of that user is in flight at any time. *)
Theorem short_press_one_in_flight_within_session :
  ∀ (userId : string) (s : AppState) (evs : list Event) (n : nat),
    stops_when_idle userId evs initial 0 →
    in_flight userId evs initial 0 = Some n →
    onButtonPress userId short s =
      (if truthy (activeRequests s !! userId)
       then (Normal tt, s, [ShowTextWall userId press_text])
       else (Normal tt, set_activeRequests <[userId := true]> s,
             [ShowTextWall userId press_text; RequestPhoto userId])) ∧
    n ≤ 1.
Proof.
  intros userId s evs n Hevs Hn. split.
  - apply onButtonPress_short_run.
  - by eapply (in_flight_bounded userId evs initial 0 n).
Qed.

Lemma short_press_one_in_flight_within_session_witness :
  let evs := [SessionStart "u" 0; ButtonPress "u" short;
              ButtonPress "u" short; Interval "u" 5000 5000;
              PhotoSettled "u" (Rejected (mkJSError None));
              SessionStop "u"; SessionStart "u" 9000;
              ButtonPress "u" short] in
  in_flight "u" evs initial 0 = Some 1 ∧
  onButtonPress "u" short (run evs initial).1 =
    (Normal tt, (run evs initial).1, [ShowTextWall "u" press_text]).
Proof.
  intros evs. split; [by vm_compute|].
  refine (proj1 (short_press_one_in_flight_within_session "u"
                   (run evs initial).1 evs 1 _ _)).
  - vm_compute. repeat split; intros; done.
  - by vm_compute.
Defined.

(** C6, as stated, fails once a session is stopped with a capture pending:
    [onStop] deletes the flag, the request stays pending, and the next short
    press issues a second one. *)
Lemma two_in_flight_after_stop :
  in_flight "u"
    [SessionStart "u" 0; ButtonPress "u" short; SessionStop "u";
     SessionStart "u" 1; ButtonPress "u" short] initial 0 = Some 2.
Proof. by vm_compute. Qed.

(** ** A disconnected transport stops the streaming *)

Lemma includes_disconnection e m :
  message e = Some m →
  includes m "WebSocket not connected" = true →
  is_disconnection e = true.
Proof. intros He Hm. unfold is_disconnection. by rewrite He, Hm. Qed.

Lemma run_keeps_streaming_off userId evs :
  ∀ s,
    Forall (λ ev, ¬ toggles_streaming userId ev) evs →
    isStreamingPhotos s !! userId = Some false →
    isStreamingPhotos (run evs s).1 !! userId = Some false.
Proof.
  induction evs as [|ev evs IH]; intros s Hevs Hs; [done|].
  inversion Hevs as [|? ? Hev Hevs']; subst. simpl.
  pose proof (coordinator_isStreamingPhotos _ _ (handle_coordinator ev s))
    as Hstep.
  destruct (handle ev s) as [[c s1] o1]. unfold_result.
  specialize (IH s1 Hevs').
  destruct (run evs s1) as [s2 o2]. simpl in *. apply IH.
  rewrite Hstep. clear IH Hstep.
  destruct ev as [u now|u [|]|u now now'|u [photo|e]|u|auth|ws|ws|ws|id st];
    simpl in *; try done.
  - destruct (decide (u = userId)) as [->|];
      [apply lookup_insert_eq | by rewrite lookup_insert_ne].
  - by destruct (truthy (activeRequests s !! u)).
  - rewrite lookup_insert_ne; [done|]. intros ->. by apply Hev.
  - by destruct (streaming s u && _).
  - destruct (is_disconnection e); [|done]. simpl.
    destruct (decide (u = userId)) as [->|];
      [apply lookup_insert_eq | by rewrite lookup_insert_ne].
  - destruct (decide (u = userId)) as [->|];
      [apply lookup_insert_eq | by rewrite lookup_insert_ne].
  - destruct (authenticated auth) as [u|] eqn:E; [|done]. simpl.
    rewrite lookup_insert_ne; [done|]. intros ->. apply Hev.
    unfold authenticated in E. by destruct auth as [[|]|].
Qed.

(** C5. When the capture call fails with an error whose message contains
    "WebSocket not connected", the handler returns normally with the
    streaming flag of the user [false]; the flag stays [false] over any
    further events that do not toggle the streaming of that user, and a tick
    after them, at whatever time, issues no capture and changes nothing. *)
Theorem disconnection_stops_streaming :
  ∀ (userId : string) (e : JSError) (m : string) (evs : list Event)
    (now now' : Z) (s : AppState),
    message e = Some m →
    includes m "WebSocket not connected" = true →
    Forall (λ ev, ¬ toggles_streaming userId ev) evs →
    let r := takePhotoAsync_resume userId (Rejected e) s in
    let s' := (run evs (state_of r)).1 in
    completion r = Normal tt ∧
    isStreamingPhotos (state_of r) !! userId = Some false ∧
    isStreamingPhotos s' !! userId = Some false ∧
    onInterval userId now now' s' = (Normal tt, s', []).
Proof.
  intros userId e m evs now now' s He Hm Hevs; cbv zeta.
  rewrite takePhotoAsync_resume_rejected.
  rewrite (includes_disconnection e m He Hm). unfold_result.
  assert (Hoff : isStreamingPhotos
            (set_activeRequests <[userId := false]>
               (set_isStreamingPhotos <[userId := false]> s)) !! userId
            = Some false) by apply lookup_insert_eq.
  pose proof (run_keeps_streaming_off userId evs _ Hevs Hoff) as Hrun.
  repeat split; [done|done|].
  rewrite onInterval_run. by rewrite Hrun.
Qed.

Lemma disconnection_stops_streaming_witness :
  let s := (run [SessionStart "u" 0; ButtonPress "u" long;
                 Interval "u" 1000 1000] initial).1 in
  let e := mkJSError (Some "Error: WebSocket not connected (state: 3)") in
  let r := takePhotoAsync_resume "u" (Rejected e) s in
  let s' := (run [Interval "u" 4000 4000; ButtonPress "u" short]
               (state_of r)).1 in
  isStreamingPhotos s !! "u" = Some true ∧
  isStreamingPhotos (state_of r) !! "u" = Some false ∧
  onInterval "u" 9000 9000 s' = (Normal tt, s', []).
Proof.
  cbv zeta. split; [by vm_compute|].
  edestruct (disconnection_stops_streaming "u"
    (mkJSError (Some "Error: WebSocket not connected (state: 3)")) _
    [Interval "u" 4000 4000; ButtonPress "u" short] 9000 9000
    (run [SessionStart "u" 0; ButtonPress "u" long;
          Interval "u" 1000 1000] initial).1 eq_refl)
    as (_ & H2 & _ & H4).
  - by vm_compute.
  - repeat constructor; simpl; tauto.
  - split; [exact H2 | exact H4].
Defined.

(** ** Stopping a session *)

(** C4, as the source has it.  [onStop] deletes the user's [nextPhotoTime]
    and [activeRequests] entries and sets the streaming flag to [false],
    keeping that entry.  When a capture that was in flight at the stop
    settles, the handler returns normally, leaves [nextPhotoTime] deleted
    and streaming [false], and puts an [activeRequests] entry back, with
    value [false]; a capture that resolved is cached as usual. *)
Theorem onStop_then_completion :
  ∀ (userId : string) (settled : Settled PhotoData.t) (s : AppState),
    let stopped := onStop userId s in
    let r := takePhotoAsync_resume userId settled (state_of stopped) in
    completion stopped = Normal tt ∧
    isStreamingPhotos (state_of stopped) !! userId = Some false ∧
    nextPhotoTime (state_of stopped) !! userId = None ∧
    activeRequests (state_of stopped) !! userId = None ∧
    completion r = Normal tt ∧
    isStreamingPhotos (state_of r) !! userId = Some false ∧
    nextPhotoTime (state_of r) !! userId = None ∧
    activeRequests (state_of r) !! userId = Some false ∧
    photos (state_of r) =
      match settled with
      | Resolved photo => <[userId := stored photo userId]> (photos s)
      | Rejected _ => photos s
      end.
Proof.
  intros userId settled s; cbv zeta.
  rewrite onStop_run. unfold_result.
  split; [done|]. split; [apply lookup_insert_eq|].
  split; [apply lookup_delete_eq|]. split; [apply lookup_delete_eq|].
  set (s1 := set_activeRequests _ _).
  pose proof (handle_coordinator (PhotoSettled userId settled) s1) as Hc.
  pose proof (takePhotoAsync_resume_returns userId settled s1) as Hn.
  simpl in Hc. fold (state_of (takePhotoAsync_resume userId settled s1)).
  fold (completion (takePhotoAsync_resume userId settled s1)).
  split; [done|].
  rewrite (coordinator_isStreamingPhotos _ _ Hc).
  rewrite (coordinator_nextPhotoTime _ _ Hc).
  rewrite (coordinator_activeRequests _ _ Hc).
  rewrite (coordinator_photos _ _ Hc).
  split; [|split; [|split]].
  - destruct settled as [photo|e]; simpl; [apply lookup_insert_eq|].
    destruct (is_disconnection e); apply lookup_insert_eq.
  - destruct settled as [photo|e]; simpl; [apply lookup_delete_eq|].
    destruct (is_disconnection e); apply lookup_delete_eq.
  - destruct settled as [photo|e]; apply lookup_insert_eq.
  - destruct settled as [photo|e]; simpl; [done|].
    by destruct (is_disconnection e).
Qed.

(** C4, as stated, fails: after [onStop] the streaming entry of the user is
    still there, and the completion of the capture that was in flight
    creates an [activeRequests] entry where [onStop] had left none. *)
Lemma completion_after_stop_recreates_entry :
  let s := (run [SessionStart "u" 0; ButtonPress "u" short] initial).1 in
  let stopped := state_of (onStop "u" s) in
  let r := takePhotoAsync_resume "u" (Rejected (mkJSError (Some "timeout")))
             stopped in
  isStreamingPhotos stopped !! "u" = Some false ∧
  activeRequests stopped !! "u" = None ∧
  activeRequests (state_of r) !! "u" = Some false.
Proof. by vm_compute. Qed.

(** ** The cache *)

Lemma run_keyed_by_user evs :
  ∀ s, keyed_by_user s → keyed_by_user (run evs s).1.
Proof.
  induction evs as [|ev evs IH]; intros s Hs; [done|]. simpl.
  pose proof (coordinator_photos _ _ (handle_coordinator ev s)) as Hstep.
  destruct (handle ev s) as [[c s1] o1]. unfold_result.
  specialize (IH s1). destruct (run evs s1) as [s2 o2]. simpl in *.
  apply IH. intros k photo. rewrite Hstep. clear IH Hstep.
  destruct ev as [u now|u [|]|u now now'|u [photo'|e]|u|auth|ws|ws|ws|id st];
    simpl; try apply Hs.
  - destruct (truthy (activeRequests s !! u)); apply Hs.
  - destruct (streaming s u && _); apply Hs.
  - destruct (decide (u = k)) as [->|].
    + rewrite lookup_insert_eq. by intros [= <-].
    + rewrite lookup_insert_ne by done. apply Hs.
  - destruct (is_disconnection e); apply Hs.
  - destruct (authenticated auth); apply Hs.
Qed.

Lemma cachePhoto_photos photo userId s :
  photos (state_of (cachePhoto photo userId s)) =
  <[userId := stored photo userId]> (photos s).
Proof.
  destruct (cachePhoto_safe photo userId s) as (_ & Hc & _).
  by rewrite (coordinator_photos _ _ Hc).
Qed.

Lemma api_photo_run userId requestId s :
  userId ≠ "" →
  api_photo (Some userId) requestId s =
  (Normal match photos s !! userId with
          | Some photo =>
              if decide (StoredPhoto.requestId photo = requestId)
              then PhotoBytes (StoredPhoto.mimeType photo)
                     (StoredPhoto.buffer photo)
              else PhotoNotFound
          | None => PhotoNotFound
          end, s, []).
Proof.
  intros Hu. unfold api_photo, authenticated.
  destruct userId as [|a u]; [done|]. step_M.
  destruct (photos s !! String a u) as [photo|]; [|done].
  by case_decide.
Qed.

Lemma api_latest_photo_run userId s :
  userId ≠ "" →
  api_latest_photo (Some userId) s =
  (Normal match photos s !! userId with
          | Some photo =>
              LatestPhoto (StoredPhoto.requestId photo)
                (StoredPhoto.timestamp photo) true (streaming s userId)
          | None => NoPhotoAvailable
          end, s, []).
Proof.
  intros Hu. unfold api_latest_photo, authenticated.
  destruct userId as [|a u]; [done|]. step_M.
  destruct (photos s !! String a u) as [photo|]; [|done].
  by step_M.
Qed.

(** C9. After [cachePhoto] of [p1] and then of [p2] for the same user, the
    cache holds [p2] for that user: the photo endpoint serves the bytes of
    [p2] under the request id of [p2] and nothing under any other id, the
    latest-photo endpoint describes [p2], and [p1], where it differs from
    [p2], is gone.  The cached photos of all other users are untouched.
    In every state the server reaches, each user id has at most one cached
    photo: two entries carrying the same user id are the same entry. *)
Theorem cachePhoto_replaces :
  ∀ (userId : string) (p1 p2 : PhotoData.t) (s : AppState),
    userId ≠ "" →
    let s2 := state_of (cachePhoto p2 userId
                          (state_of (cachePhoto p1 userId s))) in
    photos s2 !! userId = Some (stored p2 userId) ∧
    (∀ requestId,
       completion (api_photo (Some userId) requestId s2) =
       Normal (if decide (PhotoData.requestId p2 = requestId)
               then PhotoBytes (PhotoData.mimeType p2) (PhotoData.buffer p2)
               else PhotoNotFound)) ∧
    photo_part (completion (api_latest_photo (Some userId) s2)) =
      Normal (LatestPhoto (PhotoData.requestId p2) (PhotoData.timestamp p2)
                true false) ∧
    (stored p1 userId ≠ stored p2 userId →
     photos s2 !! userId ≠ Some (stored p1 userId)) ∧
    (∀ other, other ≠ userId → photos s2 !! other = photos s !! other) ∧
    (∀ evs k1 k2 q1 q2,
       photos (run evs initial).1 !! k1 = Some q1 →
       photos (run evs initial).1 !! k2 = Some q2 →
       StoredPhoto.userId q1 = StoredPhoto.userId q2 →
       k1 = k2 ∧ q1 = q2).
Proof.
  intros userId p1 p2 s Hu s2.
  assert (Hp : photos s2 !! userId = Some (stored p2 userId)).
  { unfold s2. rewrite cachePhoto_photos. apply lookup_insert_eq. }
  split; [done|]. split; [|split; [|split; [|split]]].
  - intros requestId. rewrite (api_photo_run _ _ _ Hu). unfold_result.
    by rewrite Hp.
  - rewrite (api_latest_photo_run _ _ Hu). unfold_result. by rewrite Hp.
  - rewrite Hp. congruence.
  - intros other Hother. unfold s2. rewrite !cachePhoto_photos.
    by rewrite !lookup_insert_ne.
  - intros evs k1 k2 q1 q2 H1 H2 Hq.
    assert (Hk : keyed_by_user (run evs initial).1).
    { apply run_keyed_by_user. intros k photo. simpl.
      by rewrite lookup_empty. }
    assert (k1 = k2) as -> by (rewrite <- (Hk _ _ H1), <- (Hk _ _ H2); done).
    split; [done | congruence].
Qed.

Lemma cachePhoto_replaces_witness :
  let p1 := PhotoData.mk "req-1" [x66; x6f; x6f]%byte 1700000000000
              "image/jpeg" "a.jpg" 3 in
  let p2 := PhotoData.mk "req-2" [x62; x61; x72; x21]%byte 1700000002000
              "image/png" "b.png" 4 in
  let s2 := state_of (cachePhoto p2 "u"
                        (state_of (cachePhoto p1 "u" initial))) in
  photos s2 !! "u" = Some (stored p2 "u") ∧
  photos s2 !! "u" ≠ Some (stored p1 "u").
Proof.
  intros p1 p2 s2.
  destruct (cachePhoto_replaces "u" p1 p2 initial ltac:(discriminate))
    as (H1 & _ & _ & H4 & _).
  split; [exact H1 | apply H4; discriminate].
Defined.

(** ** Starting a session *)

(** C10. Starting a session sets the streaming flag of the user to [false]
    and [nextPhotoTime] to the current time, and touches nothing else: the
    cache, the in-flight flags, the registry and all other users' entries
    stay as they were, and both photo endpoints answer any request about
    the photo as they did before. *)
Theorem onSession_keeps_cache :
  ∀ (userId : string) (now : Z) (s : AppState),
    let r := onSession userId now s in
    completion r = Normal tt ∧
    effects_of r = [] ∧
    isStreamingPhotos (state_of r) = <[userId := false]> (isStreamingPhotos s) ∧
    nextPhotoTime (state_of r) = <[userId := now]> (nextPhotoTime s) ∧
    photos (state_of r) = photos s ∧
    latestPhotoTimestamp (state_of r) = latestPhotoTimestamp s ∧
    activeRequests (state_of r) = activeRequests s ∧
    activeStreams (state_of r) = activeStreams s ∧
    (∀ authUserId requestId,
       completion (api_photo authUserId requestId (state_of r)) =
       completion (api_photo authUserId requestId s)) ∧
    (∀ authUserId,
       photo_part (completion (api_latest_photo authUserId (state_of r))) =
       photo_part (completion (api_latest_photo authUserId s))).
Proof.
  intros userId now s; cbv zeta. rewrite onSession_run. unfold_result.
  repeat (split; [done|]). split.
  - intros auth requestId. unfold api_photo.
    destruct (authenticated auth) as [u|]; [|done]. step_M. simpl.
    destruct (photos s !! u) as [photo|]; [|done]. by case_decide.
  - intros auth. unfold api_latest_photo.
    destruct (authenticated auth) as [u|]; [|done]. step_M. simpl.
    destruct (photos s !! u) as [photo|]; [|done]. by step_M.
Qed.

(** ** The broadcast loop *)

Lemma forEach_from_step array callback n k s :
  forEach_from array callback (S n) k s =
  match array s !! k with
  | Some ws =>
      match callback ws s with
      | (Normal _, s1, o1) =>
          let '(c, s2, o2) := forEach_from array callback n (S k) s1 in
          (c, s2, o1 ++ o2)
      | (Throw e, s1, o1) => (Throw e, s1, o1)
      end
  | None => forEach_from array callback n (S k) s
  end.
Proof.
  simpl. rewrite gets_bind.
  destruct (array s !! k) as [ws|]; [by rewrite bind_run|].
  by rewrite ret_bind.
Qed.

Section loop.
Context (message : string).

Lemma broadcast_callback_skip ws s :
  readyState ws ≠ OPEN →
  broadcast_callback message ws s = (Normal tt, s, []).
Proof. intros H. unfold broadcast_callback. by case_decide. Qed.

Lemma broadcast_callback_send ws s :
  accepts ws →
  broadcast_callback message ws s = (Normal tt, s, [WsSend (ws_id ws) message]).
Proof.
  intros [Ho Ht]. unfold broadcast_callback, try_catch, ws_send.
  case_decide; [|done]. by rewrite Ht.
Qed.

Lemma broadcast_callback_fail ws s :
  readyState ws = OPEN → send_throws ws = true →
  broadcast_callback message ws s = removeWebSocket "general" ws s.
Proof.
  intros Ho Ht. unfold broadcast_callback, try_catch, ws_send.
  case_decide; [|done]. rewrite Ht. simpl.
  by rewrite removeWebSocket_run.
Qed.

(** Over sockets that are quiet the loop changes nothing and sends to the
    open ones, in order. *)
Lemma forEach_from_quiet n :
  ∀ k s,
    Forall quiet (drop k (general_clients s)) →
    forEach_from general_clients (broadcast_callback message) n k s =
    (Normal tt, s,
     sends message
       (filter (λ ws, readyState ws = OPEN)
          (take n (drop k (general_clients s))))).
Proof.
  induction n as [|n IH]; intros k s Hq; [done|].
  rewrite forEach_from_step.
  destruct (general_clients s !! k) as [ws|] eqn:E.
  - rewrite (drop_S _ _ _ E) in Hq |- *.
    inversion Hq as [|? ? Hws Hrest]; subst.
    rewrite firstn_cons, filter_cons.
    destruct (decide (readyState ws = OPEN)) as [Ho|Ho].
    + rewrite broadcast_callback_send by (split; [done | by apply Hws]).
      by rewrite (IH (S k) s Hrest).
    + rewrite broadcast_callback_skip by done.
      by rewrite (IH (S k) s Hrest).
  - apply lookup_ge_None in E.
    rewrite IH by (rewrite drop_ge by lia; constructor).
    rewrite !drop_ge by lia. by rewrite !take_nil.
Qed.

End loop.

Lemma filter_accepts l :
  Forall accepts l → filter (λ ws, readyState ws = OPEN) l = l.
Proof.
  induction 1 as [|ws l [Ho _] _ IH]; [done|].
  rewrite filter_cons. case_decide; [by rewrite IH | done].
Qed.

Lemma accepts_quiet l : Forall accepts l → Forall quiet l.
Proof. intros H. eapply Forall_impl; [exact H|]. by intros ws [_ Ht] _. Qed.

Lemma indexOf_middle before bad after :
  NoDup (ws_id <$> before ++ bad :: after) →
  indexOf (before ++ bad :: after) bad = Some (length before).
Proof.
  induction before as [|c before IH]; simpl; intros Hnd.
  - by case_decide.
  - apply NoDup_cons in Hnd as [Hc Hnd].
    case_decide as Heq.
    + exfalso. apply Hc. rewrite Heq, fmap_app, fmap_cons. set_solver.
    + by rewrite (IH Hnd).
Qed.

Lemma general_clients_registered s clients :
  activeStreams s !! "general" = Some clients → general_clients s = clients.
Proof. intros H. unfold general_clients. by rewrite H. Qed.

Lemma general_clients_set clients s :
  general_clients (set_activeStreams <["general" := clients]> s) = clients.
Proof. unfold general_clients. simpl. by rewrite lookup_insert_eq. Qed.

(** With one open socket whose [send] throws among quiet ones, the loop
    reaches it, takes it out of the registry, and goes on to the end. *)
Lemma forEach_from_removes message before bad after n :
  ∀ k s,
    activeStreams s !! "general" = Some (before ++ bad :: after) →
    NoDup (ws_id <$> before ++ bad :: after) →
    Forall quiet (before ++ after) →
    readyState bad = OPEN → send_throws bad = true →
    k ≤ length before →
    n + k = length (before ++ bad :: after) →
    let r := forEach_from general_clients (broadcast_callback message) n k s in
    completion r = Normal tt ∧
    state_of r = set_activeStreams <["general" := before ++ after]> s.
Proof.
  induction n as [|n IH]; intros k s Hreg Hnd Hq Ho Ht Hk Hn; cbv zeta.
  { rewrite length_app in Hn. simpl in Hn. lia. }
  rewrite forEach_from_step, (general_clients_registered _ _ Hreg).
  destruct (decide (k = length before)) as [->|Hlt].
  - rewrite list_lookup_middle by done.
    rewrite (broadcast_callback_fail _ _ _ Ho Ht), removeWebSocket_run.
    rewrite Hreg, (indexOf_middle _ _ _ Hnd), delete_middle.
    rewrite forEach_from_quiet;
      [done | rewrite general_clients_set; by apply Forall_drop].
  - assert (Hk' : k < length before) by lia.
    rewrite lookup_app_l by done.
    destruct (lookup_lt_is_Some_2 before k Hk') as [ws Hws].
    rewrite Hws.
    assert (Hqws : quiet ws).
    { apply Forall_app in Hq as [Hq _].
      eapply Forall_forall; [exact Hq|]. by eapply list_elem_of_lookup_2. }
    assert (Hcb : ∃ o1, broadcast_callback message ws s = (Normal tt, s, o1)).
    { destruct (decide (readyState ws = OPEN)) as [Hws_o|Hws_o].
      - eexists. apply broadcast_callback_send. split; [done | by apply Hqws].
      - eexists. by apply broadcast_callback_skip. }
    destruct Hcb as [o1 ->].
    specialize (IH (S k) s Hreg Hnd Hq Ho Ht ltac:(lia) ltac:(lia)).
    cbv zeta in IH.
    destruct (forEach_from _ _ n (S k) s) as [[c s2] o2]. by unfold_result.
Qed.

(** C2, as the source has it.  Take a registry in which every channel but
    one is open and takes the message.  If the remaining channel is not
    open, the broadcast delivers the envelope once to each of the others, in
    registry order, and leaves the registry as it was: the closed channel
    stays registered (its own close or error event removes it).  If the
    remaining channel is open and its send throws, the broadcast removes it
    from the registry and keeps the others. *)
Theorem broadcastPhoto_one_bad_subscriber :
  ∀ (photo : StoredPhoto.t) (before after : list WebSocket) (bad : WebSocket)
    (s : AppState),
    activeStreams s !! "general" = Some (before ++ bad :: after) →
    NoDup (ws_id <$> before ++ bad :: after) →
    Forall accepts (before ++ after) →
    let r := broadcastPhoto photo s in
    completion r = Normal tt ∧
    (readyState bad ≠ OPEN →
     effects_of r = sends (envelope_of photo) (before ++ after) ∧
     state_of r = s) ∧
    (readyState bad = OPEN → send_throws bad = true →
     state_of r = set_activeStreams <["general" := before ++ after]> s).
Proof.
  intros photo before after bad s Hreg Hnd Hacc; cbv zeta.
  rewrite broadcastPhoto_unfold. unfold forEach. rewrite gets_bind.
  rewrite (general_clients_registered _ _ Hreg).
  destruct (decide (readyState bad = OPEN)) as [Ho|Ho].
  - destruct (send_throws bad) eqn:Ht.
    + destruct (forEach_from_removes (envelope_of photo) before bad after
                  (length (before ++ bad :: after)) 0 s Hreg Hnd
                  (accepts_quiet _ Hacc) Ho Ht ltac:(lia) ltac:(lia))
        as [Hc Hs].
      split; [done|]. split; [done | by intros _ _].
    + rewrite forEach_from_quiet.
      * split; [done|]. split; [done | by intros _ [=]].
      * rewrite (general_clients_registered _ _ Hreg). simpl.
        apply Forall_app in Hacc as [Hb Ha].
        apply Forall_app. split; [by apply accepts_quiet|].
        constructor; [by intros _ | by apply accepts_quiet].
  - rewrite forEach_from_quiet.
    + unfold_result. split; [done|]. split; [|done].
      intros _. split; [|done].
      rewrite (general_clients_registered _ _ Hreg). simpl.
      rewrite take_ge by done. rewrite drop_0, filter_app, filter_cons.
      apply Forall_app in Hacc as [Hb Ha].
      rewrite (filter_accepts _ Hb), (filter_accepts _ Ha).
      by case_decide.
    + rewrite (general_clients_registered _ _ Hreg). simpl.
      apply Forall_app in Hacc as [Hb Ha].
      apply Forall_app. split; [by apply accepts_quiet|].
      constructor; [by intros ? | by apply accepts_quiet].
Qed.

Lemma broadcastPhoto_one_bad_subscriber_witness :
  let s := (run (second_not_open CLOSING) initial).1 in
  let r := broadcastPhoto sample_photo s in
  activeStreams s !! "general" = Some [socket_a; closing_b; socket_c] ∧
  effects_of r = sends (envelope_of sample_photo) [socket_a; socket_c] ∧
  state_of r = s.
Proof.
  intros s r. split; [by vm_compute|].
  assert (Hnd : NoDup (ws_id <$> [socket_a] ++ closing_b :: [socket_c])).
  { apply (bool_decide_unpack _). by vm_compute. }
  assert (Hacc : Forall accepts ([socket_a] ++ [socket_c])).
  { by repeat constructor. }
  refine (proj1 (proj2 (broadcastPhoto_one_bad_subscriber sample_photo
            [socket_a] [socket_c] closing_b s _ Hnd Hacc)) _);
    [by vm_compute | discriminate].
Defined.

(** C2, as stated, fails on a closed channel: with three subscribers of
    which the second is closing or closed, the broadcast reaches the two
    others and the second one is still in the registry afterwards. *)
Lemma closed_subscriber_stays_registered :
  let closing := (run (second_not_open CLOSING) initial).1 in
  let closed := (run (second_not_open CLOSED) initial).1 in
  general_clients closed = [socket_a; closed_b; socket_c] ∧
  effects_of (broadcastPhoto sample_photo closed) =
    sends (envelope_of sample_photo) [socket_a; socket_c] ∧
  general_clients (state_of (broadcastPhoto sample_photo closed)) =
    [socket_a; closed_b; socket_c] ∧
  effects_of (broadcastPhoto sample_photo closing) =
    sends (envelope_of sample_photo) [socket_a; socket_c] ∧
  general_clients (state_of (broadcastPhoto sample_photo closing)) =
    [socket_a; closing_b; socket_c].
Proof. by vm_compute. Qed.

(** What the removal inside the loop costs: the array shrinks under
    [forEach], and the subscriber that follows the failing one is passed
    over. *)
Example broadcast_passes_over_next_subscriber :
  let s := (run [Connection failing_a; Connection socket_b;
                 Connection socket_c] initial).1 in
  let r := broadcastPhoto sample_photo s in
  effects_of r = sends (envelope_of sample_photo) [socket_c] ∧
  general_clients (state_of r) = [socket_b; socket_c].
Proof. by vm_compute. Qed.

(** ** The envelope on the wire *)

(** C8. Every message a broadcast sends is the wire envelope of the photo:
    the JSON object with the members [type] = "photo", [data] = the base64
    text of the photo's bytes, [mimeType], [timestamp] (epoch milliseconds,
    in decimal) and [size] (in decimal), in this order and with nothing
    else; the photo that reaches the broadcast from [cachePhoto] carries
    the bytes, MIME type, timestamp and size of the capture; subscribers
    that are open and take the message get exactly this text, once each;
    the base64 text reads back as the bytes of the photo; the whole message
    reads back, by the JSON grammar, as the five members with the bytes,
    the MIME type, the timestamp and the size of the photo; and, character
    by character, the message is
    [{"type":"photo","data":"<base64>","mimeType":"<MIME type>","timestamp":<decimal>,"size":<decimal>}]
    with double quotes and no white space, the MIME type standing as it is
    when it holds no control character, double quote or backslash, and
    with the escapes of [escape_table] in general. *)
Theorem broadcast_message_is_wire_envelope :
  ∀ (photo : StoredPhoto.t) (capture : PhotoData.t) (userId : string)
    (s : AppState),
    Forall (λ e, ∃ ws, e = WsSend ws
              (wire_envelope (StoredPhoto.buffer photo)
                 (StoredPhoto.mimeType photo) (StoredPhoto.timestamp photo)
                 (StoredPhoto.size photo)))
      (effects_of (broadcastPhoto photo s)) ∧
    Forall (λ e, ∃ ws, e = WsSend ws
              (wire_envelope (PhotoData.buffer capture)
                 (PhotoData.mimeType capture) (PhotoData.timestamp capture)
                 (PhotoData.size capture)))
      (effects_of (cachePhoto capture userId s)) ∧
    (Forall accepts (general_clients s) →
     effects_of (broadcastPhoto photo s) =
     sends (wire_envelope (StoredPhoto.buffer photo)
              (StoredPhoto.mimeType photo) (StoredPhoto.timestamp photo)
              (StoredPhoto.size photo))
       (general_clients s)) ∧
    base64_decode (base64 (StoredPhoto.buffer photo)) =
      Some (StoredPhoto.buffer photo) ∧
    read_envelope
      (wire_envelope (StoredPhoto.buffer photo)
         (StoredPhoto.mimeType photo) (StoredPhoto.timestamp photo)
         (StoredPhoto.size photo)) =
      Some (StoredPhoto.buffer photo, StoredPhoto.mimeType photo,
            StoredPhoto.timestamp photo, StoredPhoto.size photo) ∧
    (forallb needs_no_escape
       (list_ascii_of_string (StoredPhoto.mimeType photo)) = true →
     wire_envelope (StoredPhoto.buffer photo)
       (StoredPhoto.mimeType photo) (StoredPhoto.timestamp photo)
       (StoredPhoto.size photo) =
     with_double_quotes "{'type':'photo','data':'"
       +:+ base64 (StoredPhoto.buffer photo)
       +:+ with_double_quotes "','mimeType':'"
       +:+ StoredPhoto.mimeType photo
       +:+ with_double_quotes "','timestamp':"
       +:+ decimal (StoredPhoto.timestamp photo)
       +:+ with_double_quotes ",'size':"
       +:+ decimal (StoredPhoto.size photo) +:+ "}") ∧
    wire_envelope (StoredPhoto.buffer photo)
      (StoredPhoto.mimeType photo) (StoredPhoto.timestamp photo)
      (StoredPhoto.size photo) =
    with_double_quotes "{'type':'photo','data':'"
      +:+ base64 (StoredPhoto.buffer photo)
      +:+ with_double_quotes "','mimeType':'"
      +:+ escaped_text (StoredPhoto.mimeType photo)
      +:+ with_double_quotes "','timestamp':"
      +:+ decimal (StoredPhoto.timestamp photo)
      +:+ with_double_quotes ",'size':"
      +:+ decimal (StoredPhoto.size photo) +:+ "}".
Proof.
  intros photo capture userId s.
  split; [|split; [|split; [|split; [apply base64_decode_base64|
    split; [|split]]]]].
  - by destruct (broadcastPhoto_safe (coordinator s) photo s eq_refl)
      as (_ & _ & H).
  - by destruct (cachePhoto_safe capture userId s) as (_ & _ & H).
  - intros Hacc. rewrite broadcastPhoto_unfold. unfold forEach.
    rewrite gets_bind, forEach_from_quiet
      by (rewrite drop_0; by apply accepts_quiet).
    unfold_result. rewrite drop_0, take_ge by done.
    by rewrite (filter_accepts _ Hacc).
  - rewrite <- stringify_envelope. apply read_envelope_stringify.
  - intros Hplain. rewrite <- stringify_envelope.
    by apply stringify_envelope_text.
  - rewrite <- stringify_envelope. apply stringify_envelope_escaped.
Qed.

Lemma broadcast_message_is_wire_envelope_witness :
  let s := (run [Connection socket_a; Connection socket_b] initial).1 in
  let text := with_double_quotes
    "{'type':'photo','data':'Zm9v','mimeType':'image/jpeg','timestamp':1700000000000,'size':3}" in
  effects_of (broadcastPhoto sample_photo s) = [WsSend 1 text; WsSend 2 text] ∧
  list_byte_of_string text
  = [x7b; x22; x74; x79; x70; x65; x22; x3a; x22; x70; x68; x6f; x74; x6f;
     x22; x2c; x22; x64; x61; x74; x61; x22; x3a; x22; x5a; x6d; x39; x76;
     x22; x2c; x22; x6d; x69; x6d; x65; x54; x79; x70; x65; x22; x3a; x22;
     x69; x6d; x61; x67; x65; x2f; x6a; x70; x65; x67; x22; x2c; x22; x74;
     x69; x6d; x65; x73; x74; x61; x6d; x70; x22; x3a; x31; x37; x30; x30;
     x30; x30; x30; x30; x30; x30; x30; x30; x30; x2c; x22; x73; x69; x7a;
     x65; x22; x3a; x33; x7d]%byte ∧
  read_envelope text
  = Some ([x66; x6f; x6f]%byte, "image/jpeg", 1700000000000%Z, 3%Z).
Proof.
  intros s text.
  destruct (broadcast_message_is_wire_envelope
              sample_photo (PhotoData.mk "" [] 0 "" "" 0) "u" s)
    as (_ & _ & Hsends & _ & Hread & Htext & _).
  specialize (Hsends ltac:(by repeat constructor)).
  specialize (Htext eq_refl).
  rewrite Htext in Hsends, Hread.
  split; [exact Hsends | split; [reflexivity | exact Hread]].
Defined.

(** * Further properties of the code *)

#[local] Set Warnings "-clear-no-such-hyp".

(** ** The subscriber registry *)

Lemma indexOf_None clients ws :
  indexOf clients ws = None ↔ ws_id ws ∉ ws_id <$> clients.
Proof.
  induction clients as [|c clients IH]; simpl.
  - split; [intros _; apply not_elem_of_nil | done].
  - case_decide as Heq.
    + split; [done|]. intros H. exfalso. apply H. rewrite Heq. set_solver.
    + destruct (indexOf clients ws) as [i|]; simpl.
      * split; [done|]. intros H. exfalso.
        assert (Hin : ws_id ws ∉ ws_id <$> clients) by set_solver.
        by apply IH in Hin.
      * split; [|done]. intros _. destruct IH as [IH _].
        specialize (IH eq_refl). set_solver.
Qed.

Lemma indexOf_filter clients ws :
  NoDup (ws_id <$> clients) →
  match indexOf clients ws with
  | Some index => delete index clients
  | None => clients
  end = filter (λ c, ws_id c ≠ ws_id ws) clients.
Proof.
  induction clients as [|c clients IH]; [done|].
  rewrite fmap_cons, NoDup_cons. intros [Hc Hnd]. simpl.
  rewrite filter_cons. case_decide as Heq.
  - rewrite decide_False by (by intros H; apply H).
    simpl. symmetry. clear IH.
    induction clients as [|d clients IH]; [done|].
    rewrite filter_cons, decide_True.
    + f_equal. apply IH; [set_solver|].
      rewrite fmap_cons in Hnd. by apply NoDup_cons in Hnd as [_ ?].
    + intros Hd. apply Hc. rewrite Heq, <- Hd. set_solver.
  - rewrite decide_True by done. specialize (IH Hnd).
    destruct (indexOf clients ws) as [i|]; simpl; by rewrite <- IH.
Qed.

Lemma removeWebSocket_not_registered streamId ws s :
  (∀ clients, activeStreams s !! streamId = Some clients →
              ws_id ws ∉ ws_id <$> clients) →
  removeWebSocket streamId ws s = (Normal tt, s, []).
Proof.
  intros Habs. rewrite removeWebSocket_run.
  destruct (activeStreams s !! streamId) as [clients|]; [|done].
  by rewrite (proj2 (indexOf_None clients ws) (Habs clients eq_refl)).
Qed.

(** X1 removing a socket that is not registered, or from a stream that does
    not exist, changes nothing and does not throw. *)
Theorem removeWebSocket_absent :
  ∀ (streamId : string) (ws : WebSocket) (s : AppState),
    (∀ clients, activeStreams s !! streamId = Some clients →
                ws_id ws ∉ ws_id <$> clients) →
    removeWebSocket streamId ws s = (Normal tt, s, []).
Proof. exact removeWebSocket_not_registered. Qed.

Lemma removeWebSocket_absent_witness :
  removeWebSocket "general" socket_c
    (run [Connection socket_a; Connection socket_b] initial).1 =
  (Normal tt, (run [Connection socket_a; Connection socket_b] initial).1, []) ∧
  removeWebSocket "other" socket_a
    (run [Connection socket_a] initial).1 =
  (Normal tt, (run [Connection socket_a] initial).1, []).
Proof.
  split; apply removeWebSocket_absent; intros clients Hc; vm_compute in Hc.
  - injection Hc as <-. vm_compute. set_solver.
  - discriminate.
Defined.

(** X2 on a registry of distinct sockets, removing a socket leaves exactly
    the other sockets, in their order, touches no other stream and nothing
    else in the state, and a second removal of the same socket changes
    nothing. *)
Theorem removeWebSocket_unregisters :
  ∀ (streamId : string) (ws : WebSocket) (s : AppState)
    (clients : list WebSocket),
    activeStreams s !! streamId = Some clients →
    NoDup (ws_id <$> clients) →
    let r := removeWebSocket streamId ws s in
    completion r = Normal tt ∧
    effects_of r = [] ∧
    coordinator (state_of r) = coordinator s ∧
    activeStreams (state_of r) =
      <[streamId := filter (λ c, ws_id c ≠ ws_id ws) clients]>
        (activeStreams s) ∧
    removeWebSocket streamId ws (state_of r) = (Normal tt, state_of r, []).
Proof.
  intros streamId ws s clients Hreg Hnd r.
  assert (Hr : r = (Normal tt,
             set_activeStreams
               <[streamId := filter (λ c, ws_id c ≠ ws_id ws) clients]> s,
             [])).
  { unfold r. rewrite removeWebSocket_run, Hreg.
    pose proof (indexOf_filter clients ws Hnd) as Hf.
    destruct (indexOf clients ws) as [i|]; rewrite <- Hf; [done|].
    f_equal. f_equal. destruct s; unfold set_activeStreams; simpl in *.
    f_equal. symmetry. by apply insert_id. }
  rewrite Hr. unfold_result. repeat split.
  apply removeWebSocket_not_registered. simpl. intros clients'.
  rewrite lookup_insert_eq. intros [= <-].
  intros (c & Hid & Hc)%list_elem_of_fmap.
  apply list_elem_of_filter in Hc as [Hne _]. by apply Hne.
Qed.

Lemma removeWebSocket_unregisters_witness :
  let s := (run [Connection socket_a; Connection socket_b;
                 Connection socket_c] initial).1 in
  activeStreams (state_of (removeWebSocket "general" socket_b s)) =
    <["general" := [socket_a; socket_c]]> (activeStreams s).
Proof.
  intros s.
  destruct (removeWebSocket_unregisters "general" socket_b s
              [socket_a; socket_b; socket_c]) as (_ & _ & _ & H & _).
  - by vm_compute.
  - apply (bool_decide_unpack _). by vm_compute.
  - exact H.
Defined.

Lemma on_connection_run ws s :
  on_connection ws s =
  (Normal tt,
   set_activeStreams <["general" := general_clients s ++ [ws]]> s, []).
Proof.
  unfold on_connection, general_clients. rewrite gets_bind.
  destruct (activeStreams s !! "general") as [clients|] eqn:E; step_M.
  - unfold modify, set_activeStreams. cbv beta. by rewrite E.
  - unfold modify, set_activeStreams. simpl.
    by rewrite lookup_insert_eq, insert_insert_eq.
Qed.

Lemma indexOf_last clients ws :
  ws_id ws ∉ ws_id <$> clients →
  indexOf (clients ++ [ws]) ws = Some (length clients).
Proof.
  induction clients as [|c clients IH]; simpl; intros Hfresh.
  - by rewrite decide_True.
  - rewrite decide_False by set_solver. rewrite IH by set_solver. done.
Qed.

(** X3 a socket that connects and then closes (or errors) leaves the
    registry as it was before the connection, and nothing else has changed:
    the ['close'] and ['error'] handlers undo the ['connection'] handler. *)
Theorem connection_then_close :
  ∀ (ws : WebSocket) (s : AppState),
    ws_id ws ∉ ws_id <$> general_clients s →
    let closed := (run [Connection ws; SocketClosed ws] s).1 in
    let errored := (run [Connection ws; SocketError ws] s).1 in
    general_clients (run [Connection ws] s).1 = general_clients s ++ [ws] ∧
    general_clients closed = general_clients s ∧
    coordinator closed = coordinator s ∧
    errored = closed.
Proof.
  intros ws s Hfresh. simpl.
  rewrite on_connection_run. unfold_result.
  rewrite removeWebSocket_run. simpl.
  rewrite lookup_insert_eq, (indexOf_last _ _ Hfresh).
  rewrite (delete_middle (general_clients s) [] ws), app_nil_r.
  simpl. by rewrite !general_clients_set.
Qed.

Lemma connection_then_close_witness :
  let s := (run [Connection socket_a; Connection socket_b] initial).1 in
  general_clients (run [Connection socket_c; SocketClosed socket_c] s).1 =
  [socket_a; socket_b].
Proof.
  intros s.
  destruct (connection_then_close socket_c s) as (_ & H & _).
  - vm_compute. set_solver.
  - exact H.
Defined.

(** ** What a broadcast can and cannot do *)

(** A loop invariant that only has to hold for the callback on sockets the
    array holds when the loop reaches them. *)
Lemma forEach_from_invariant (I : AppState → Prop) (Q : Effect → Prop)
    array callback :
  (∀ ws s, I s → ws ∈ array s →
     completion (callback ws s) = Normal tt ∧
     I (state_of (callback ws s)) ∧
     Forall Q (effects_of (callback ws s))) →
  ∀ n k, safe I Q (forEach_from array callback n k).
Proof.
  intros Hcb n. induction n as [|n IH]; intros k s Hs.
  - repeat split; [done | constructor].
  - rewrite forEach_from_step.
    destruct (array s !! k) as [ws|] eqn:E; [|by apply IH].
    destruct (Hcb ws s Hs) as (Hc & HI & HQ);
      [by eapply list_elem_of_lookup_2|].
    destruct (callback ws s) as [[c s1] o1]. unfold_result. subst c.
    destruct (IH (S k) s1 HI) as (Hc' & HI' & HQ').
    destruct (forEach_from array callback n (S k) s1) as [[c' s2] o2].
    unfold_result. repeat split; [done | done | by apply Forall_app].
Qed.

Lemma broadcastPhoto_shrinks photo s :
  let r := broadcastPhoto photo s in
  completion r = Normal tt ∧
  coordinator (state_of r) = coordinator s ∧
  (∀ streamId, streamId ≠ "general" →
     activeStreams (state_of r) !! streamId = activeStreams s !! streamId) ∧
  general_clients (state_of r) `sublist_of` general_clients s ∧
  Forall (λ e, ∃ ws, ws ∈ general_clients s ∧ accepts ws ∧
                     e = WsSend (ws_id ws) (envelope_of photo))
    (effects_of r).
Proof.
  cbv zeta. rewrite broadcastPhoto_unfold.
  unfold forEach. rewrite gets_bind.
  set (I := λ s', coordinator s' = coordinator s ∧
                  (∀ streamId, streamId ≠ "general" →
                     activeStreams s' !! streamId = activeStreams s !! streamId) ∧
                  general_clients s' `sublist_of` general_clients s).
  set (Q := λ e, ∃ ws, ws ∈ general_clients s ∧ accepts ws ∧
                       e = WsSend (ws_id ws) (envelope_of photo)).
  destruct (forEach_from_invariant I Q general_clients
              (broadcast_callback (envelope_of photo))) with
    (n := length (general_clients s)) (k := 0) (s := s)
    as (Hc & (H1 & H2 & H3) & H4); [|done|done].
  clear. intros ws s' (H1 & H2 & H3) Hws.
  destruct (decide (readyState ws = OPEN)) as [Ho|Ho];
    [destruct (send_throws ws) eqn:Ht|].
  - rewrite (broadcast_callback_fail _ _ _ Ho Ht), removeWebSocket_run.
    unfold_result. split; [done|]. split; [|constructor].
    destruct (activeStreams s' !! "general") as [clients|] eqn:E; [|done].
    destruct (indexOf clients ws) as [i|]; [|done].
    split; [done|]. split.
    + intros streamId Hne. simpl. rewrite lookup_insert_ne by done.
      by apply H2.
    + rewrite general_clients_set. etrans; [apply sublist_delete|].
      by rewrite <- (general_clients_registered _ _ E).
  - rewrite broadcast_callback_send by done. unfold_result.
    repeat split; try done. constructor; [|constructor].
    exists ws. repeat split; [by eapply elem_of_sublist|done..].
  - rewrite broadcast_callback_skip by done. unfold_result.
    repeat split; first [done | constructor].
Qed.

(** X4 a broadcast never throws, leaves everything but the "general"
    registry as it was, adds no subscriber and reorders none (the registry
    afterwards is a sublist of the one before), and sends only the envelope,
    only to subscribers of the registry that are open. *)
Theorem broadcastPhoto_prunes_only :
  ∀ (photo : StoredPhoto.t) (s : AppState),
    let r := broadcastPhoto photo s in
    completion r = Normal tt ∧
    coordinator (state_of r) = coordinator s ∧
    (∀ streamId, streamId ≠ "general" →
       activeStreams (state_of r) !! streamId = activeStreams s !! streamId) ∧
    general_clients (state_of r) `sublist_of` general_clients s ∧
    Forall (λ e, ∃ ws, ws ∈ general_clients s ∧ accepts ws ∧
                       e = WsSend (ws_id ws) (envelope_of photo))
      (effects_of r).
Proof. exact broadcastPhoto_shrinks. Qed.

Lemma NoDup_fmap_eq {A B} (f : A → B) (l : list A) x y :
  NoDup (f <$> l) → x ∈ l → y ∈ l → f x = f y → x = y.
Proof.
  induction l as [|a l IH]; [by intros _ ?%elem_of_nil|].
  rewrite fmap_cons, NoDup_cons. intros [Ha Hnd].
  rewrite !elem_of_cons. intros [->|Hx] [->|Hy] Hf; [done|..].
  - exfalso. apply Ha. rewrite Hf. by apply list_elem_of_fmap_2.
  - exfalso. apply Ha. rewrite <- Hf. by apply list_elem_of_fmap_2.
  - by apply IH.
Qed.

(** X5 on a registry of distinct sockets a broadcast removes nobody but
    open subscribers whose send throws: a subscriber that is not open, or
    whose send succeeds, is still registered afterwards. *)
Theorem broadcastPhoto_keeps_quiet :
  ∀ (photo : StoredPhoto.t) (s : AppState) (ws : WebSocket),
    NoDup (ws_id <$> general_clients s) →
    ws ∈ general_clients s →
    quiet ws →
    ws ∈ general_clients (state_of (broadcastPhoto photo s)).
Proof.
  intros photo s q Hnd Hq Hquiet. rewrite broadcastPhoto_unfold.
  unfold forEach. rewrite gets_bind.
  set (I := λ s', general_clients s' `sublist_of` general_clients s ∧
                  q ∈ general_clients s').
  destruct (forEach_from_invariant I (λ _, True) general_clients
              (broadcast_callback (envelope_of photo))) with
    (n := length (general_clients s)) (k := 0) (s := s)
    as (_ & (_ & H) & _); [|done|done].
  intros ws s' (Hsub & Hin) Hws.
  assert (HQ : ∀ o : list Effect, Forall (λ _, True) o).
  { intros o. by apply Forall_forall. }
  destruct (decide (readyState ws = OPEN)) as [Ho|Ho];
    [destruct (send_throws ws) eqn:Ht|].
  - rewrite (broadcast_callback_fail _ _ _ Ho Ht), removeWebSocket_run.
    unfold_result. split; [done|]. split; [|done].
    destruct (activeStreams s' !! "general") as [clients|] eqn:E; [|done].
    destruct (indexOf clients ws) as [i|] eqn:Ei; [|done].
    rewrite (general_clients_registered _ _ E) in Hsub, Hin, Hws.
    assert (Hnd' : NoDup (ws_id <$> clients)).
    { eapply sublist_NoDup; [exact Hnd|]. by apply fmap_sublist. }
    pose proof (indexOf_filter clients ws Hnd') as Hf. rewrite Ei in Hf.
    unfold I. rewrite general_clients_set, Hf. split.
    + etrans; [apply sublist_filter | done].
    + apply list_elem_of_filter. split; [|done]. intros Hid.
      assert (q = ws) as -> by (by eapply NoDup_fmap_eq).
      specialize (Hquiet Ho). congruence.
  - rewrite broadcast_callback_send by done. by unfold_result.
  - rewrite broadcast_callback_skip by done. by unfold_result.
Qed.

Lemma broadcastPhoto_keeps_quiet_witness :
  let s := (run [Connection failing_a; Connection socket_b;
                 ReadyStateChanged 2 CLOSING; Connection socket_c]
              initial).1 in
  closing_b ∈ general_clients (state_of (broadcastPhoto sample_photo s)).
Proof.
  intros s. apply broadcastPhoto_keeps_quiet.
  - apply (bool_decide_unpack _). by vm_compute.
  - vm_compute. set_solver.
  - intros [=].
Defined.

(** The loop over a registry with one failing socket, with what it sends:
    the sockets before the failing one, and those after it but for the
    first, which has moved into the index the loop has just left. *)
Lemma forEach_from_passes_over message before bad after n :
  ∀ k s,
    activeStreams s !! "general" = Some (before ++ bad :: after) →
    NoDup (ws_id <$> before ++ bad :: after) →
    Forall quiet (before ++ after) →
    readyState bad = OPEN → send_throws bad = true →
    k ≤ length before →
    n + k = length (before ++ bad :: after) →
    forEach_from general_clients (broadcast_callback message) n k s =
    (Normal tt,
     set_activeStreams <["general" := before ++ after]> s,
     sends message
       (filter (λ ws, readyState ws = OPEN) (drop k before ++ drop 1 after))).
Proof.
  induction n as [|n IH]; intros k s Hreg Hnd Hq Ho Ht Hk Hn.
  { rewrite length_app in Hn. simpl in Hn. lia. }
  rewrite forEach_from_step, (general_clients_registered _ _ Hreg).
  destruct (decide (k = length before)) as [->|Hlt].
  - rewrite list_lookup_middle by done.
    rewrite (broadcast_callback_fail _ _ _ Ho Ht), removeWebSocket_run.
    rewrite Hreg, (indexOf_middle _ _ _ Hnd), delete_middle.
    rewrite forEach_from_quiet
      by (rewrite general_clients_set; by apply Forall_drop).
    rewrite general_clients_set, drop_all. simpl.
    rewrite length_app in Hn. simpl in Hn.
    replace (drop (S (length before)) (before ++ after)) with (drop 1 after).
    + by rewrite take_ge by (rewrite length_drop; lia).
    + rewrite drop_app_ge by lia. f_equal. lia.
  - assert (Hk' : k < length before) by lia.
    rewrite lookup_app_l by done.
    destruct (lookup_lt_is_Some_2 before k Hk') as [ws Hws].
    rewrite Hws, (drop_S _ _ _ Hws).
    assert (Hqws : quiet ws).
    { apply Forall_app in Hq as [Hq _].
      eapply Forall_forall; [exact Hq|]. by eapply list_elem_of_lookup_2. }
    simpl. rewrite filter_cons.
    destruct (decide (readyState ws = OPEN)) as [Hws_o|Hws_o].
    + rewrite broadcast_callback_send by (split; [done | by apply Hqws]).
      by rewrite (IH (S k) s Hreg Hnd Hq Ho Ht) by lia.
    + rewrite broadcast_callback_skip by done.
      by rewrite (IH (S k) s Hreg Hnd Hq Ho Ht) by lia.
Qed.

(** X6 when the send to one open subscriber throws and all other
    subscribers are open and take the message, the broadcast removes the
    failing subscriber and delivers the envelope to every other subscriber
    except the one registered right after the failing one: the [splice]
    inside [forEach] moves that one into the index just visited. *)
Theorem broadcastPhoto_passes_over_next :
  ∀ (photo : StoredPhoto.t) (before after : list WebSocket)
    (failing : WebSocket) (s : AppState),
    activeStreams s !! "general" = Some (before ++ failing :: after) →
    NoDup (ws_id <$> before ++ failing :: after) →
    Forall accepts (before ++ after) →
    readyState failing = OPEN →
    send_throws failing = true →
    broadcastPhoto photo s =
    (Normal tt,
     set_activeStreams <["general" := before ++ after]> s,
     sends (envelope_of photo) (before ++ drop 1 after)).
Proof.
  intros photo before after failing s Hreg Hnd Hacc Ho Ht.
  rewrite broadcastPhoto_unfold. unfold forEach. rewrite gets_bind.
  rewrite (general_clients_registered _ _ Hreg).
  rewrite (forEach_from_passes_over _ before failing after _ 0 s Hreg Hnd
             (accepts_quiet _ Hacc) Ho Ht) by lia.
  rewrite drop_0, filter_accepts; [done|].
  apply Forall_app in Hacc as [Hb Ha].
  apply Forall_app. split; [done | by apply Forall_drop].
Qed.

Lemma broadcastPhoto_passes_over_next_witness :
  let s := (run [Connection socket_c; Connection failing_a;
                 Connection socket_b;
                 Connection (mkWebSocket 4 OPEN false)] initial).1 in
  effects_of (broadcastPhoto sample_photo s) =
    sends (envelope_of sample_photo)
      [socket_c; mkWebSocket 4 OPEN false] ∧
  general_clients (state_of (broadcastPhoto sample_photo s)) =
    [socket_c; socket_b; mkWebSocket 4 OPEN false].
Proof.
  intros s.
  rewrite (broadcastPhoto_passes_over_next sample_photo [socket_c]
             [socket_b; mkWebSocket 4 OPEN false] failing_a s).
  - unfold_result. split; [done|]. by rewrite general_clients_set.
  - by vm_compute.
  - apply (bool_decide_unpack _). by vm_compute.
  - by repeat constructor.
  - done.
  - done.
Defined.

(** ** Subscribers stay distinct *)

Lemma set_readyState_id id state (clients : list WebSocket) :
  ws_id <$> (set_readyState id state <$> clients) = ws_id <$> clients.
Proof.
  rewrite <- list_fmap_compose. apply list_fmap_ext. intros i ws _. simpl.
  unfold set_readyState. by case_decide.
Qed.

(** What each event does to the subscribers of the "general" stream. *)
Lemma handle_registry ev s :
  match ev with
  | Connection ws =>
      general_clients (state_of (handle ev s)) = general_clients s ++ [ws]
  | _ =>
      (ws_id <$> general_clients (state_of (handle ev s)))
        `sublist_of` (ws_id <$> general_clients s)
  end.
Proof.
  destruct ev as [u now|u [|]|u now now'|u [photo|e]|u|auth|ws|ws|ws|id st];
    unfold handle.
  - by rewrite onSession_run.
  - rewrite onButtonPress_short_run.
    by destruct (truthy (activeRequests s !! u)).
  - by rewrite onButtonPress_long_run.
  - rewrite onInterval_run.
    destruct (truthy (isStreamingPhotos s !! u) && _); [|done].
    by destruct (truthy (activeRequests s !! u)).
  - rewrite takePhotoAsync_resume_resolved, cachePhoto_run. unfold_result.
    apply fmap_sublist.
    by destruct (broadcastPhoto_shrinks (stored photo u)
         (set_latestPhotoTimestamp <[u := PhotoData.timestamp photo]>
            (set_photos <[u := stored photo u]> s))) as (_ & _ & _ & H & _).
  - rewrite takePhotoAsync_resume_rejected. unfold_result.
    by destruct (is_disconnection e).
  - by rewrite onStop_run.
  - rewrite bind_run. unfold api_toggle_streaming.
    destruct (authenticated auth) as [u|]; [|done]. by step_M.
  - rewrite on_connection_run. unfold_result. apply general_clients_set.
  - rewrite removeWebSocket_run. unfold_result. apply fmap_sublist.
    destruct (activeStreams s !! "general") as [clients|] eqn:E; [|done].
    destruct (indexOf clients ws) as [i|]; [|done].
    rewrite general_clients_set, (general_clients_registered _ _ E).
    apply sublist_delete.
  - rewrite removeWebSocket_run. unfold_result. apply fmap_sublist.
    destruct (activeStreams s !! "general") as [clients|] eqn:E; [|done].
    destruct (indexOf clients ws) as [i|]; [|done].
    rewrite general_clients_set, (general_clients_registered _ _ E).
    apply sublist_delete.
  - unfold modify, general_clients. unfold_result.
    unfold readyState_changes. rewrite lookup_fmap.
    destruct (activeStreams s !! "general") as [clients|]; simpl; [|done].
    by rewrite set_readyState_id.
Qed.

(** X7 as long as every connection brings a socket that is not registered
    yet, the registry never holds a socket twice, whatever else happens
    (captures and their broadcasts, closes, errors, state changes). *)
Theorem registry_stays_distinct :
  ∀ (evs : list Event) (s : AppState),
    NoDup (ws_id <$> general_clients s) →
    fresh_connections evs s →
    NoDup (ws_id <$> general_clients (run evs s).1).
Proof.
  induction evs as [|ev evs IH]; intros s Hnd Hfresh; [done|].
  simpl in Hfresh. destruct Hfresh as [Hev Hfresh]. simpl.
  pose proof (handle_registry ev s) as Hstep.
  destruct (handle ev s) as [[c s1] o1]. unfold_result.
  specialize (IH s1). destruct (run evs s1) as [s2 o2]. simpl in *.
  apply IH; [|done].
  destruct ev; try (by eapply sublist_NoDup).
  rewrite Hstep, fmap_app. apply NoDup_app. split; [done|].
  split; [|apply NoDup_singleton].
  intros x Hx ->%list_elem_of_singleton. by apply Hev.
Qed.

Lemma registry_stays_distinct_witness :
  NoDup (ws_id <$> general_clients
    (run [Connection socket_a; Connection socket_b;
          PhotoSettled "u" (Resolved (PhotoData.mk "r" [] 1 "image/png" "f" 0));
          SocketClosed socket_a; Connection socket_c;
          Connection socket_a] initial).1).
Proof.
  apply registry_stays_distinct.
  - vm_compute. constructor.
  - vm_compute. repeat split; set_solver.
Defined.

(** ** The per-user maps *)

(** X8 in every state the server reaches, [latestPhotoTimestamp] holds for
    each user exactly the timestamp of that user's cached photo, and no
    entry for a user without one. *)
Theorem latestPhotoTimestamp_of_cache :
  ∀ (evs : list Event) (userId : string),
    latestPhotoTimestamp (run evs initial).1 !! userId =
    StoredPhoto.timestamp <$> photos (run evs initial).1 !! userId.
Proof.
  intros evs userId.
  assert (H : ∀ s,
    (∀ u, latestPhotoTimestamp s !! u = StoredPhoto.timestamp <$> photos s !! u) →
    ∀ u, latestPhotoTimestamp (run evs s).1 !! u =
         StoredPhoto.timestamp <$> photos (run evs s).1 !! u).
  { induction evs as [|ev evs IH]; intros s Hs; [done|]. simpl.
    pose proof (handle_coordinator ev s) as Hc.
    destruct (handle ev s) as [[c s1] o1]. unfold_result.
    specialize (IH s1). destruct (run evs s1) as [s2 o2]. simpl in *.
    apply IH. intros u.
    rewrite (coordinator_latestPhotoTimestamp _ _ Hc),
            (coordinator_photos _ _ Hc).
    clear IH Hc.
    destruct ev as [w now|w [|]|w now now'|w [photo|e]|w|auth|ws|ws|ws|id st];
      simpl; try apply Hs.
    - destruct (truthy (activeRequests s !! w)); apply Hs.
    - destruct (streaming s w && _); apply Hs.
    - destruct (decide (w = u)) as [->|Hne].
      + by rewrite !lookup_insert_eq.
      + rewrite !lookup_insert_ne by done. apply Hs.
    - destruct (is_disconnection e); apply Hs.
    - destruct (authenticated auth); apply Hs. }
  apply H. intros u. simpl. by rewrite !lookup_empty.
Qed.

(** X9 an event about one user (session start and stop, button press, tick,
    capture completion, toggle request) and an event about no user (socket
    events) leave the entries of every other user in all five per-user maps
    as they were. *)
Theorem handle_other_user :
  ∀ (ev : Event) (s : AppState) (userId : string),
    user_of ev ≠ Some userId →
    user_entries (state_of (handle ev s)) userId = user_entries s userId.
Proof.
  intros ev s v Hv. unfold user_entries.
  pose proof (handle_coordinator ev s) as Hc.
  rewrite (coordinator_photos _ _ Hc),
          (coordinator_latestPhotoTimestamp _ _ Hc),
          (coordinator_isStreamingPhotos _ _ Hc),
          (coordinator_nextPhotoTime _ _ Hc),
          (coordinator_activeRequests _ _ Hc).
  clear Hc.
  destruct ev as [w now|w [|]|w now now'|w [photo|e]|w|auth|ws|ws|ws|id st];
    simpl in *; try done.
  - by rewrite !lookup_insert_ne by congruence.
  - destruct (truthy (activeRequests s !! w)); simpl; [done|].
    by rewrite lookup_insert_ne by congruence.
  - by rewrite lookup_insert_ne by congruence.
  - destruct (streaming s w && _); simpl; [|done].
    destruct (truthy (activeRequests s !! w)); simpl;
      by rewrite ?lookup_insert_ne by congruence.
  - by rewrite !lookup_insert_ne by congruence.
  - destruct (is_disconnection e); simpl;
      by rewrite ?lookup_insert_ne by congruence.
  - by rewrite lookup_insert_ne, !lookup_delete_ne by congruence.
  - destruct (authenticated auth) as [w|]; simpl; [|done].
    by rewrite lookup_insert_ne by congruence.
Qed.

Lemma handle_other_user_witness :
  let s := (run [SessionStart "u" 0; ButtonPress "u" long;
                 ButtonPress "u" short; SessionStart "v" 5] initial).1 in
  user_entries (state_of (handle (SessionStop "v") s)) "u" =
  user_entries s "u".
Proof. intros s. by apply handle_other_user. Defined.

(** ** The query endpoints *)

(** X10 the two read endpoints never throw, never change the state and emit
    nothing, whatever the request; a request without a user id (none, or the
    empty string) is answered with "not authenticated" by all three
    endpoints, and the toggle endpoint then toggles nothing. *)
Theorem endpoints_read_only :
  ∀ (authUserId : option string) (requestId : string) (s : AppState),
    (∃ response, api_latest_photo authUserId s = (Normal response, s, [])) ∧
    (∃ response, api_photo authUserId requestId s = (Normal response, s, [])) ∧
    (authenticated authUserId = None →
     api_latest_photo authUserId s = (Normal NotAuthenticated, s, []) ∧
     api_photo authUserId requestId s = (Normal NotAuthenticated, s, []) ∧
     api_toggle_streaming authUserId s = (Normal NotAuthenticated, s, [])).
Proof.
  intros auth requestId s.
  unfold api_latest_photo, api_photo, api_toggle_streaming.
  destruct (authenticated auth) as [u|]; [|by repeat split; eauto].
  split; [|split; [|done]]; step_M.
  - destruct (photos s !! u); step_M; by eexists.
  - destruct (photos s !! u); [case_decide|]; by eexists.
Qed.

Lemma endpoints_read_only_witness :
  api_toggle_streaming (Some "")
    (run [SessionStart "" 0] initial).1 =
  (Normal NotAuthenticated, (run [SessionStart "" 0] initial).1, []).
Proof.
  by destruct (endpoints_read_only (Some "") "r"
                 (run [SessionStart "" 0] initial).1) as (_ & _ & H);
    destruct (H eq_refl) as (_ & _ & ->).
Defined.

(** X11 for a user without a cached photo the latest-photo endpoint answers
    "no photo available" and the photo endpoint "not found" for every
    request id; once a capture of that user has resolved, the latest-photo
    endpoint reports the request id and timestamp of that capture, and the
    photo endpoint serves its bytes and MIME type under that request id. *)
Theorem capture_then_query :
  ∀ (userId : string) (photo : PhotoData.t) (requestId : string)
    (s : AppState),
    userId ≠ "" →
    photos s !! userId = None →
    let s' := state_of (takePhotoAsync_resume userId (Resolved photo) s) in
    completion (api_latest_photo (Some userId) s) = Normal NoPhotoAvailable ∧
    completion (api_photo (Some userId) requestId s) = Normal PhotoNotFound ∧
    completion (api_latest_photo (Some userId) s') =
      Normal (LatestPhoto (PhotoData.requestId photo)
                (PhotoData.timestamp photo) true (streaming s userId)) ∧
    completion (api_photo (Some userId) (PhotoData.requestId photo) s') =
      Normal (PhotoBytes (PhotoData.mimeType photo) (PhotoData.buffer photo)).
Proof.
  intros userId photo requestId s Hu Hnone s'.
  pose proof (handle_coordinator (PhotoSettled userId (Resolved photo)) s)
    as Hc. simpl in Hc. fold s' in Hc.
  rewrite !(api_latest_photo_run _ _ Hu), !(api_photo_run _ _ _ Hu).
  unfold_result. unfold streaming.
  rewrite (coordinator_photos _ _ Hc), (coordinator_isStreamingPhotos _ _ Hc).
  simpl. rewrite Hnone, lookup_insert_eq. simpl.
  by rewrite decide_True.
Qed.

Lemma capture_then_query_witness :
  let photo := PhotoData.mk "req-7" [x01; x02]%byte 1700000000123
                 "image/png" "p.png" 2 in
  let s' := state_of (takePhotoAsync_resume "u" (Resolved photo)
                        (run [SessionStart "u" 0] initial).1) in
  completion (api_photo (Some "u") "req-7" s') =
  Normal (PhotoBytes "image/png" [x01; x02]%byte).
Proof.
  intros photo s'.
  by destruct (capture_then_query "u" photo "any"
                 (run [SessionStart "u" 0] initial).1 ltac:(discriminate)
                 eq_refl) as (_ & _ & _ & H).
Defined.

(** ** The capture coordinator over time *)

Lemma run_keeps_nextPhotoTime userId evs :
  ∀ s,
    Forall (λ ev, ¬ moves_nextPhotoTime userId ev) evs →
    nextPhotoTime (run evs s).1 !! userId = nextPhotoTime s !! userId.
Proof.
  induction evs as [|ev evs IH]; intros s Hevs; [done|].
  inversion Hevs as [|? ? Hev Hevs']; subst. simpl.
  pose proof (coordinator_nextPhotoTime _ _ (handle_coordinator ev s))
    as Hstep.
  destruct (handle ev s) as [[c s1] o1]. unfold_result.
  specialize (IH s1 Hevs').
  destruct (run evs s1) as [s2 o2]. simpl in *. rewrite IH, Hstep.
  clear IH Hstep.
  destruct ev as [u now|u [|]|u now now'|u [photo|e]|u|auth|ws|ws|ws|id st];
    simpl in *; try done.
  - by rewrite lookup_insert_ne by (intros ->; by apply Hev).
  - by destruct (truthy (activeRequests s !! u)).
  - destruct (streaming s u && _); simpl; [|done].
    by rewrite lookup_insert_ne by (intros ->; by apply Hev).
  - by destruct (is_disconnection e).
  - by rewrite lookup_delete_ne by (intros ->; by apply Hev).
  - by destruct (authenticated auth).
Qed.

(** X12 once a tick of a user has fired (streaming on and [nextPhotoTime]
    passed), no tick of that user within 2000 ms of it does anything: it
    issues no capture and leaves the state alone, whatever button presses,
    capture completions, toggles and socket events came in between. *)
Theorem ticks_are_spaced :
  ∀ (userId : string) (now now' later later' : Z) (evs : list Event)
    (s : AppState),
    streaming s userId = true →
    (default 0 (nextPhotoTime s !! userId) < now)%Z →
    Forall (λ ev, ¬ moves_nextPhotoTime userId ev) evs →
    (later ≤ now' + 2000)%Z →
    let s' := (run evs (state_of (onInterval userId now now' s))).1 in
    nextPhotoTime s' !! userId = Some (now' + 2000)%Z ∧
    onInterval userId later later' s' = (Normal tt, s', []).
Proof.
  intros userId now now' later later' evs s Hon Hnext Hevs Hlater s'.
  assert (Hn : nextPhotoTime s' !! userId = Some (now' + 2000)%Z).
  { unfold s'. rewrite (run_keeps_nextPhotoTime _ _ _ Hevs).
    rewrite onInterval_run. unfold streaming in Hon. rewrite Hon.
    rewrite (proj2 (Z.ltb_lt _ _) Hnext). simpl.
    destruct (truthy (activeRequests s !! userId)); unfold_result;
      apply lookup_insert_eq. }
  split; [done|]. rewrite onInterval_run, Hn. simpl.
  rewrite (proj2 (Z.ltb_ge _ _) Hlater). by rewrite andb_false_r.
Qed.

Lemma ticks_are_spaced_witness :
  let s := (run [SessionStart "u" 1000; ButtonPress "u" long] initial).1 in
  let s' := (run [ButtonPress "u" short;
                  PhotoSettled "u" (Rejected (mkJSError None))]
               (state_of (onInterval "u" 2000 2001 s))).1 in
  onInterval "u" 4001 4001 s' = (Normal tt, s', []).
Proof.
  intros s s'.
  refine (proj2 (ticks_are_spaced "u" 2000 2001 4001 4001
            [ButtonPress "u" short;
             PhotoSettled "u" (Rejected (mkJSError None))] s _ _ _ _)).
  - by vm_compute.
  - by vm_compute.
  - repeat constructor; simpl; tauto.
  - lia.
Defined.

(** X13 stopping a session does not stop its timer: after [onStop], once
    the toggle endpoint has turned streaming on again, the next tick of the
    stopped session (at any positive time) issues a capture, and puts the
    [nextPhotoTime] and [activeRequests] entries back. *)
Theorem tick_after_stop :
  ∀ (userId : string) (now now' : Z) (s : AppState),
    userId ≠ "" →
    (0 < now)%Z →
    let s' := (run [SessionStop userId; ToggleStreaming (Some userId)] s).1 in
    nextPhotoTime s' !! userId = None ∧
    activeRequests s' !! userId = None ∧
    onInterval userId now now' s' =
      (Normal tt,
       set_activeRequests <[userId := true]>
         (set_nextPhotoTime <[userId := (now' + 2000)%Z]> s'),
       [RequestPhoto userId]).
Proof.
  intros userId now now' s Hu Hnow. cbn [run handle].
  rewrite onStop_run. rewrite bind_run.
  rewrite (api_toggle_streaming_run _ _ Hu). unfold_result.
  split; [apply lookup_delete_eq|]. split; [apply lookup_delete_eq|].
  rewrite onInterval_run. simpl.
  rewrite !lookup_insert_eq, !lookup_delete_eq. simpl.
  by rewrite (proj2 (Z.ltb_lt _ _) Hnow).
Qed.

Lemma tick_after_stop_witness :
  let s := (run [SessionStart "u" 1000; ButtonPress "u" long] initial).1 in
  effects_of (onInterval "u" 5000 5000
    (run [SessionStop "u"; ToggleStreaming (Some "u")] s).1) =
  [RequestPhoto "u"].
Proof.
  intros s.
  destruct (tick_after_stop "u" 5000 5000 s ltac:(discriminate) ltac:(lia))
    as (_ & _ & H).
  by rewrite H.
Defined.

(** X14 the in-flight flag never sticks: whatever the state and however the
    capture ends, the short press that follows the completion is accepted
    and issues a request. *)
Theorem press_after_completion :
  ∀ (userId : string) (settled : Settled PhotoData.t) (s : AppState),
    let s' := state_of (takePhotoAsync_resume userId settled s) in
    onButtonPress userId short s' =
      (Normal tt, set_activeRequests <[userId := true]> s',
       [ShowTextWall userId press_text; RequestPhoto userId]).
Proof.
  intros userId settled s s'. rewrite onButtonPress_short_run.
  pose proof (handle_coordinator (PhotoSettled userId settled) s) as Hc.
  simpl in Hc. fold s' in Hc.
  rewrite (coordinator_activeRequests _ _ Hc).
  destruct settled as [photo|e]; simpl; by rewrite lookup_insert_eq.
Qed.

(** X15 a session never captures on its own before streaming is toggled on:
    after a session start, and equally after a session stop, over any
    events that contain no long press and no toggle request of that user,
    every tick of that user issues nothing and changes nothing. *)
Theorem no_tick_capture_until_toggle :
  ∀ (userId : string) (now later later' : Z) (evs : list Event)
    (s : AppState),
    Forall (λ ev, ¬ toggles_streaming userId ev) evs →
    let started := (run evs (state_of (onSession userId now s))).1 in
    let stopped := (run evs (state_of (onStop userId s))).1 in
    onInterval userId later later' started = (Normal tt, started, []) ∧
    onInterval userId later later' stopped = (Normal tt, stopped, []).
Proof.
  intros userId now later later' evs s Hevs; cbv zeta.
  rewrite !onInterval_run.
  rewrite !(run_keeps_streaming_off userId evs _ Hevs); [done|..].
  - rewrite onStop_run. apply lookup_insert_eq.
  - rewrite onSession_run. apply lookup_insert_eq.
Qed.

Lemma no_tick_capture_until_toggle_witness :
  let started := (run [ButtonPress "u" short; ButtonPress "v" long;
                       Interval "u" 3000 3000]
                    (state_of (onSession "u" 0 initial))).1 in
  onInterval "u" 9000 9000 started = (Normal tt, started, []).
Proof.
  intros started.
  refine (proj1 (no_tick_capture_until_toggle "u" 0 9000 9000
            [ButtonPress "u" short; ButtonPress "v" long;
             Interval "u" 3000 3000] initial _)).
  repeat constructor; simpl; try tauto. discriminate.
Defined.

(** ** The disconnection test *)

Lemma prefix_app search :
  ∀ s, String.prefix search s = true ↔ ∃ after, s = search +:+ after.
Proof.
  induction search as [|a search IH]; intros s.
  - destruct s; simpl; split; eauto.
  - destruct s as [|b s]; simpl.
    + split; [done | by intros [after [=]]].
    + destruct (ascii_dec a b) as [->|Hne].
      * rewrite IH. split.
        -- intros [after ->]. by exists after.
        -- intros [after [= ->]]. by exists after.
      * split; [done|]. intros [after [= -> _]]. done.
Qed.

Lemma includes_substring search :
  ∀ s, includes s search = true ↔ substring search s.
Proof.
  intros s. split.
  - induction s as [|c s IH]; cbn [includes].
    + destruct (String.prefix search "") eqn:E; [|done].
      apply prefix_app in E as [after E]. intros _. by exists "", after.
    + destruct (String.prefix search (String c s)) eqn:E.
      * apply prefix_app in E as [after E]. intros _. by exists "", after.
      * intros (before & after & ->)%IH. by exists (String c before), after.
  - intros (before & after & ->).
    induction before as [|c before IH].
    + assert (H : String.prefix search (search +:+ after) = true)
        by (apply prefix_app; eauto).
      change ("" +:+ search +:+ after) with (search +:+ after).
      destruct (search +:+ after); cbn [includes]; by rewrite H.
    + change (String c before +:+ search +:+ after)
        with (String c (before +:+ search +:+ after)).
      cbn [includes]. rewrite IH. by destruct (String.prefix _ _).
Qed.

(** X16 a failed capture counts as a disconnection exactly when its error
    has a message in which "WebSocket not connected" or "CLOSED" occurs
    somewhere; an error without a message never does. *)
Theorem is_disconnection_substring :
  ∀ (e : JSError),
    is_disconnection e = true ↔
    ∃ m, message e = Some m ∧
         (substring "WebSocket not connected" m ∨ substring "CLOSED" m).
Proof.
  intros e. unfold is_disconnection. destruct (message e) as [m|].
  - rewrite orb_true_iff, !includes_substring. split.
    + intros H. by exists m.
    + by intros (m' & [= <-] & H).
  - split; [done | by intros (m & [=] & _)].
Qed.

(** ** The file on disk *)

Lemma split_nonempty separator s : split separator s ≠ [].
Proof.
  destruct s as [|c s]; simpl; [done|].
  destruct (Ascii.eqb c separator); [done|].
  by destruct (split separator s).
Qed.

Lemma split_pieces separator s :
  Forall (λ piece, separator ∉ list_ascii_of_string piece) (split separator s).
Proof.
  induction s as [|c s IH]; simpl.
  - constructor; [apply not_elem_of_nil | constructor].
  - destruct (Ascii.eqb c separator) eqn:E.
    + constructor; [apply not_elem_of_nil | done].
    + apply Ascii.eqb_neq in E.
      destruct (split separator s) as [|piece pieces].
      * constructor; [|constructor]. simpl. set_solver.
      * inversion IH; subst. constructor; [|done]. simpl. set_solver.
Qed.

Lemma split_without separator s :
  separator ∉ list_ascii_of_string s → split separator s = [s].
Proof.
  induction s as [|c s IH]; simpl; [done|]. intros Hs.
  rewrite (proj2 (Ascii.eqb_neq c separator)) by set_solver.
  rewrite IH by set_solver. done.
Qed.

Lemma split_first separator s rest :
  separator ∉ list_ascii_of_string s →
  split separator (s +:+ String separator rest) = s :: split separator rest.
Proof.
  induction s as [|c s IH]; intros Hs.
  - change ("" +:+ String separator rest) with (String separator rest).
    simpl. by rewrite Ascii.eqb_refl.
  - change (String c s +:+ String separator rest)
      with (String c (s +:+ String separator rest)).
    simpl in *. rewrite (proj2 (Ascii.eqb_neq c separator)) by set_solver.
    rewrite IH by set_solver. done.
Qed.

(** X17 the extension of the file written to disk is never empty and never
    contains a slash, whatever the MIME type; for a MIME type of the form
    type/subtype it is the subtype, and when the MIME type has no slash or
    nothing after it the extension is "jpg". *)
Theorem fileExt_of_mimeType :
  ∀ (mimeType type subtype : string),
    "/"%char ∉ list_ascii_of_string type →
    "/"%char ∉ list_ascii_of_string subtype →
    fileExt mimeType ≠ "" ∧
    ("/"%char ∉ list_ascii_of_string (fileExt mimeType)) ∧
    fileExt (type +:+ String "/" subtype) =
      (if decide (subtype = "") then "jpg" else subtype) ∧
    fileExt type = "jpg".
Proof.
  intros mimeType type subtype Htype Hsub. repeat split.
  - unfold fileExt. destruct (split "/" mimeType !! 1) as [[|c ext]|]; done.
  - unfold fileExt.
    destruct (split "/" mimeType !! 1) as [[|c ext]|] eqn:E;
      [vm_compute; set_solver | | vm_compute; set_solver].
    pose proof (split_pieces "/" mimeType) as Hp.
    rewrite Forall_forall in Hp. apply Hp.
    by eapply list_elem_of_lookup_2.
  - unfold fileExt. rewrite (split_first _ _ _ Htype), (split_without _ _ Hsub).
    simpl. by destruct subtype.
  - unfold fileExt. by rewrite (split_without _ _ Htype).
Qed.

Lemma fileExt_of_mimeType_witness :
  fileExt "image/jpeg" = "jpeg" ∧ fileExt "image/" = "jpg" ∧
  fileExt "binary" = "jpg" ∧
  photo_file "u" sample_photo = "photo_u_1700000000000.jpeg".
Proof.
  assert (H : ∀ s, bool_decide ("/"%char ∉ list_ascii_of_string s) = true →
                   "/"%char ∉ list_ascii_of_string s)
    by (intros s; apply bool_decide_eq_true_1).
  destruct (fileExt_of_mimeType "" "image" "jpeg"
              (H "image" eq_refl) (H "jpeg" eq_refl)) as (_ & _ & H1 & _).
  destruct (fileExt_of_mimeType "" "image" ""
              (H "image" eq_refl) (H "" eq_refl)) as (_ & _ & H2 & _).
  destruct (fileExt_of_mimeType "" "binary" ""
              (H "binary" eq_refl) (H "" eq_refl)) as (_ & _ & _ & H3).
  split; [exact H1 | split; [exact H2 | split; [exact H3 | reflexivity]]].
Defined.

(** ** The root route *)

(** The loop of the root route from any point on: the timestamp it holds
    never goes down, is that of the photo it holds, and ends above the
    timestamp of every entry still to come. *)
Lemma root_latest_from entries :
  ∀ (latestPhoto : option StoredPhoto.t) (latestTimestamp : Z),
    match latestPhoto with
    | Some p => StoredPhoto.timestamp p = latestTimestamp ∧ (0 < latestTimestamp)%Z
    | None => latestTimestamp = 0%Z
    end →
    let result :=
      foldl (λ (acc : option StoredPhoto.t * Z) (entry : string * StoredPhoto.t),
               let '(latestPhoto, latestTimestamp) := acc in
               let photoTimestamp := StoredPhoto.timestamp entry.2 in
               if (latestTimestamp <? photoTimestamp)%Z
               then (Some entry.2, photoTimestamp)
               else (latestPhoto, latestTimestamp))
            (latestPhoto, latestTimestamp) entries in
    (latestTimestamp ≤ result.2)%Z ∧
    match result.1 with
    | Some p => StoredPhoto.timestamp p = result.2 ∧ (0 < result.2)%Z ∧
                (Some p = latestPhoto ∨ ∃ u, (u, p) ∈ entries)
    | None => result.2 = 0%Z ∧ latestPhoto = None
    end ∧
    ∀ entry, entry ∈ entries → (StoredPhoto.timestamp entry.2 ≤ result.2)%Z.
Proof.
  induction entries as [|[u q] entries IH]; intros latestPhoto latestTimestamp Hacc.
  - simpl. split; [lia|]. split.
    + destruct latestPhoto; [|done]. destruct Hacc. by eauto.
    + by intros entry ?%elem_of_nil.
  - cbn [foldl]. cbv zeta. simpl.
    destruct (latestTimestamp <? StoredPhoto.timestamp q)%Z eqn:E.
    + apply Z.ltb_lt in E.
      destruct (IH (Some q) (StoredPhoto.timestamp q)) as (H1 & H2 & H3).
      { split; [done|]. destruct latestPhoto; [destruct Hacc|]; lia. }
      cbv zeta in H1, H2, H3. split; [lia|]. split.
      * destruct (foldl _ _ entries).1 as [p|]; [|by destruct H2].
        destruct H2 as (Hp & Hpos & [[= ->]|[v Hv]]).
        -- repeat split; [done..|]. right. exists u. set_solver.
        -- repeat split; [done..|]. right. exists v. set_solver.
      * intros entry [->|Hin]%elem_of_cons; [done | by apply H3].
    + apply Z.ltb_ge in E.
      destruct (IH latestPhoto latestTimestamp Hacc) as (H1 & H2 & H3).
      cbv zeta in H1, H2, H3. split; [lia|]. split.
      * destruct (foldl _ _ entries).1 as [p|]; [|done].
        destruct H2 as (Hp & Hpos & [Heq|[v Hv]]).
        -- repeat split; [done..|]. by left.
        -- repeat split; [done..|]. right. exists v. set_solver.
      * intros entry [->|Hin]%elem_of_cons; [simpl; lia | by apply H3].
Qed.

(** X18 whatever the order in which the [Map] yields its entries, the root
    page shows a cached photo whose timestamp is the largest of all cached
    photos, provided that timestamp is positive; when no cached photo has a
    positive timestamp (in particular when the cache is empty) it shows the
    "no images" text.  The image source is the data URL of that photo. *)
Theorem root_page_shows_latest :
  ∀ (entries : list (string * StoredPhoto.t)) (s : AppState),
    entries ≡ₚ map_to_list (photos s) →
    match (root_latest entries).1 with
    | Some latestPhoto =>
        (∃ u, photos s !! u = Some latestPhoto) ∧
        (0 < StoredPhoto.timestamp latestPhoto)%Z ∧
        (∀ u photo, photos s !! u = Some photo →
           (StoredPhoto.timestamp photo ≤ StoredPhoto.timestamp latestPhoto)%Z) ∧
        root_image entries =
          StreamImage ("data:" +:+ StoredPhoto.mimeType latestPhoto
                       +:+ ";base64,"
                       +:+ base64 (StoredPhoto.buffer latestPhoto))
    | None =>
        (∀ u photo, photos s !! u = Some photo →
           (StoredPhoto.timestamp photo ≤ 0)%Z) ∧
        root_image entries = NoImage
    end.
Proof.
  intros entries s Hperm.
  assert (Hin : ∀ u photo, (u, photo) ∈ entries ↔ photos s !! u = Some photo).
  { intros u photo. rewrite Hperm. apply elem_of_map_to_list. }
  destruct (root_latest_from entries None 0%Z eq_refl) as (H1 & H2 & H3).
  cbv zeta in H1, H2, H3. fold (root_latest entries) in H1, H2, H3.
  unfold root_image.
  destruct (root_latest entries).1 as [p|].
  - destruct H2 as (Hp & Hpos & [[=]|[u Hu]]).
    split; [exists u; by apply Hin|]. split; [lia|]. split; [|done].
    intros v photo Hv%Hin. specialize (H3 _ Hv). simpl in H3. lia.
  - destruct H2 as [H2 _]. split; [|done].
    intros v photo Hv%Hin. specialize (H3 _ Hv). simpl in H3. lia.
Qed.

Lemma root_page_shows_latest_witness :
  let s := (run [PhotoSettled "u"
                   (Resolved (PhotoData.mk "r1" [x66]%byte 20 "image/png" "a" 1));
                 PhotoSettled "v"
                   (Resolved (PhotoData.mk "r2" [x6f]%byte 10 "image/png" "b" 1))]
              initial).1 in
  root_image (map_to_list (photos s)) = StreamImage "data:image/png;base64,Zg==".
Proof.
  intros s.
  pose proof (root_page_shows_latest (map_to_list (photos s)) s
                (reflexivity _)) as H.
  destruct (root_latest (map_to_list (photos s))).1 as [p|] eqn:E.
  - destruct H as (_ & _ & _ & ->).
    vm_compute in E. injection E as <-. reflexivity.
  - vm_compute in E. discriminate.
Defined.

(** ** The viewer page *)

Lemma ok_not_404 status : Viewer.ok status = true → (status =? 404) = false.
Proof.
  unfold Viewer.ok. intros [_ H]%andb_prop. apply Nat.leb_le in H.
  apply Nat.eqb_neq. lia.
Qed.

(** X19 however the polls of a viewer page end, a picture on the page is
    always the one of the request id the script holds: its source is
    [/api/photo/] followed by [currentRequestId]. *)
Theorem viewer_shows_current_request :
  ∀ (fetches : list (Viewer.Fetched (string * bool))) (src : string),
    Viewer.content (Viewer.polls fetches Viewer.loaded) = Viewer.Photo src →
    ∃ requestId,
      Viewer.currentRequestId (Viewer.polls fetches Viewer.loaded)
        = Some requestId ∧
      src = "/api/photo/" +:+ requestId.
Proof.
  intros fetches.
  assert (H : ∀ st,
    (∀ src, Viewer.content st = Viewer.Photo src →
       ∃ requestId, Viewer.currentRequestId st = Some requestId ∧
                    src = "/api/photo/" +:+ requestId) →
    ∀ src, Viewer.content (Viewer.polls fetches st) = Viewer.Photo src →
       ∃ requestId,
         Viewer.currentRequestId (Viewer.polls fetches st) = Some requestId ∧
         src = "/api/photo/" +:+ requestId).
  { induction fetches as [|fetched fetches IH]; intros st Hst; [done|].
    apply IH. clear IH. intros src.
    destruct fetched as [|status [[requestId streaming]|]]; simpl; try done.
    - destruct (status =? 404); [done|].
      destruct (Viewer.ok status); simpl; [|done].
      case_decide; simpl; [apply Hst|]. intros [= <-]. by eexists.
    - destruct (status =? 404); [done|]. by destruct (Viewer.ok status). }
  apply H. by intros src.
Qed.

Lemma viewer_shows_current_request_witness :
  Viewer.currentRequestId
    (Viewer.polls [Viewer.Answer 404 None;
                   Viewer.Answer 200 (Some ("req-1", true));
                   Viewer.Answer 200 (Some ("req-1", false))]
       Viewer.loaded) = Some "req-1".
Proof.
  destruct (viewer_shows_current_request
              [Viewer.Answer 404 None;
               Viewer.Answer 200 (Some ("req-1", true));
               Viewer.Answer 200 (Some ("req-1", false))]
              "/api/photo/req-1" eq_refl) as (requestId & H & Hsrc).
  rewrite H. f_equal. by injection Hsrc.
Defined.

(** X20 a successful poll that reports the request id the page already
    holds only updates the streaming button; it never touches the content.
    So after a failed poll has put the error text on the page (or a 404 the
    "no photos" text), the picture does not come back until a capture with
    another request id arrives. *)
Theorem viewer_error_sticks :
  ∀ (st : Viewer.State) (status : nat) (requestId : string)
    (streaming : bool) (failedStatus : nat),
    Viewer.currentRequestId st = Some requestId →
    Viewer.ok status = true →
    Viewer.ok failedStatus = false →
    let again := Viewer.Answer status (Some (requestId, streaming)) in
    Viewer.checkForNewPhoto again st = Viewer.updateStreamingUI streaming st ∧
    Viewer.content (Viewer.checkForNewPhoto again
                      (Viewer.checkForNewPhoto Viewer.NetworkError st))
      = Viewer.LoadError ∧
    Viewer.content (Viewer.checkForNewPhoto again
                      (Viewer.checkForNewPhoto
                         (Viewer.Answer failedStatus None) st))
      = (if failedStatus =? 404 then Viewer.NoPhotos else Viewer.LoadError).
Proof.
  intros st status requestId streaming failedStatus Hid Hok Hfail; cbv zeta.
  unfold Viewer.checkForNewPhoto.
  rewrite (ok_not_404 _ Hok), Hok, Hfail. simpl. rewrite Hid.
  rewrite !decide_True by done. split; [done|]. split; [done|].
  destruct (failedStatus =? 404); simpl; rewrite Hid;
    by rewrite decide_True.
Qed.

Lemma viewer_error_sticks_witness :
  let st := Viewer.polls [Viewer.Answer 200 (Some ("req-1", false))]
              Viewer.loaded in
  Viewer.content st = Viewer.Photo "/api/photo/req-1" ∧
  Viewer.content
    (Viewer.checkForNewPhoto (Viewer.Answer 200 (Some ("req-1", false)))
       (Viewer.checkForNewPhoto Viewer.NetworkError st)) = Viewer.LoadError.
Proof.
  intros st. split; [reflexivity|].
  by destruct (viewer_error_sticks st 200 "req-1" false 500 eq_refl eq_refl
                 eq_refl) as (_ & H & _).
Defined.

(** X21 a viewer page polling the server end to end: for a user with a
    cached photo whose request id the page does not hold yet, the poll puts
    the picture of that request id on the page, the photo endpoint serves
    the cached bytes under that very id, and the button shows the
    server's streaming flag; for a user without a cached photo the page
    shows the "no photos" text, and without authentication the error
    text. *)
Theorem viewer_poll_end_to_end :
  ∀ (userId : string) (photo : StoredPhoto.t) (st : Viewer.State)
    (s : AppState),
    userId ≠ "" →
    Viewer.currentRequestId st ≠ Some (StoredPhoto.requestId photo) →
    let poll auth s :=
      Viewer.checkForNewPhoto
        (latest_photo_answer (completion (api_latest_photo auth s))) st in
    (photos s !! userId = Some photo →
     Viewer.content (poll (Some userId) s) =
       Viewer.Photo ("/api/photo/" +:+ StoredPhoto.requestId photo) ∧
     Viewer.currentRequestId (poll (Some userId) s) =
       Some (StoredPhoto.requestId photo) ∧
     Viewer.isStreaming (poll (Some userId) s) = streaming s userId ∧
     completion (api_photo (Some userId) (StoredPhoto.requestId photo) s) =
       Normal (PhotoBytes (StoredPhoto.mimeType photo)
                 (StoredPhoto.buffer photo))) ∧
    (photos s !! userId = None →
     Viewer.content (poll (Some userId) s) = Viewer.NoPhotos) ∧
    Viewer.content (poll None s) = Viewer.LoadError.
Proof.
  intros userId photo st s Hu Hnew; cbv beta zeta.
  rewrite (api_latest_photo_run _ _ Hu), (api_photo_run _ _ _ Hu).
  unfold_result. split; [|split; [|done]].
  - intros ->. simpl. rewrite decide_False by done. simpl.
    by rewrite decide_True.
  - by intros ->.
Qed.

Lemma viewer_poll_end_to_end_witness :
  let s := (run [SessionStart "u" 0; ButtonPress "u" long] initial).1 in
  let s' := state_of (cachePhoto
              (PhotoData.mk "req-1" [x66; x6f; x6f]%byte 1700000000000
                 "image/jpeg" "photo.jpg" 3) "u" s) in
  Viewer.content
    (Viewer.checkForNewPhoto
       (latest_photo_answer (completion (api_latest_photo (Some "u") s')))
       Viewer.loaded) = Viewer.Photo "/api/photo/req-1".
Proof.
  intros s s'.
  destruct (viewer_poll_end_to_end "u" sample_photo Viewer.loaded s'
              ltac:(discriminate) ltac:(discriminate)) as (H & _).
  by destruct H as (-> & _); [by vm_compute|].
Defined.

(** X22 the toggle button end to end: after a click answered by the toggle
    endpoint, the page's streaming flag and its button show the flag the
    server now holds for the user; a click that fails (network error, or
    not authenticated) leaves the page as it was. *)
Theorem viewer_toggle_end_to_end :
  ∀ (userId : string) (st : Viewer.State) (s : AppState),
    userId ≠ "" →
    let r := api_toggle_streaming (Some userId) s in
    let st' := Viewer.toggleStreaming (toggle_answer (completion r)) st in
    Viewer.isStreaming st' = streaming (state_of r) userId ∧
    Viewer.button_active st' = streaming (state_of r) userId ∧
    Viewer.button_text st' =
      (if streaming (state_of r) userId then "Stop Streaming"
       else "Start Streaming") ∧
    Viewer.content st' = Viewer.content st ∧
    Viewer.currentRequestId st' = Viewer.currentRequestId st ∧
    Viewer.toggleStreaming Viewer.NetworkError st = st ∧
    Viewer.toggleStreaming
      (toggle_answer (completion (api_toggle_streaming None s))) st = st.
Proof.
  intros userId st s Hu; cbv zeta.
  rewrite (api_toggle_streaming_run _ _ Hu). unfold_result.
  unfold streaming. simpl. rewrite !lookup_insert_eq. simpl.
  by destruct (truthy (isStreamingPhotos s !! userId)).
Qed.

Lemma viewer_toggle_end_to_end_witness :
  let s := (run [SessionStart "u" 0] initial).1 in
  Viewer.button_text
    (Viewer.toggleStreaming
       (toggle_answer (completion (api_toggle_streaming (Some "u") s)))
       Viewer.loaded) = "Stop Streaming".
Proof.
  intros s.
  by destruct (viewer_toggle_end_to_end "u" Viewer.loaded s
                 ltac:(discriminate)) as (_ & _ & -> & _).
Defined.

(** ** The in-flight flag over a run *)

Lemma run_cons ev evs s :
  (run (ev :: evs) s).1 = (run evs (state_of (handle ev s))).1.
Proof.
  simpl. destruct (handle ev s) as [[c s1] o1]. unfold_result.
  by destruct (run evs s1).
Qed.

Lemma run_flag_counts userId evs :
  ∀ s pending n,
    stops_when_idle userId evs s pending →
    flag_counts userId s pending →
    in_flight userId evs s pending = Some n →
    flag_counts userId (run evs s).1 n.
Proof.
  induction evs as [|ev evs IH]; intros s pending n Hevs Hinv Hn.
  - simpl in *. by injection Hn as <-.
  - rewrite run_cons. simpl in Hevs, Hn. destruct Hevs as [Hstop Hevs].
    destruct (pending_after userId ev s pending) as [pending'|] eqn:E;
      [|done].
    eapply IH; [exact Hevs| |exact Hn]. by eapply handle_flag_counts.
Qed.

(** X23 along a run from the start of the server in which no session of the
    user is stopped while a capture of that user is pending, the in-flight
    flag tells the truth at every point: it is set exactly when one capture
    of the user is pending, and not set exactly when none is. *)
Theorem flag_tells_pending :
  ∀ (userId : string) (evs : list Event) (n : nat),
    stops_when_idle userId evs initial 0 →
    in_flight userId evs initial 0 = Some n →
    (truthy (activeRequests (run evs initial).1 !! userId) = true ↔ n = 1) ∧
    (truthy (activeRequests (run evs initial).1 !! userId) = false ↔ n = 0).
Proof.
  intros userId evs n Hevs Hn.
  pose proof (run_flag_counts userId evs initial 0 n Hevs eq_refl Hn) as H.
  unfold flag_counts in H.
  destruct (truthy (activeRequests (run evs initial).1 !! userId)); subst n;
    split; split; (done || lia).
Qed.

Lemma flag_tells_pending_witness :
  let evs := [SessionStart "u" 0; ButtonPress "u" short;
              PhotoSettled "u" (Rejected (mkJSError None));
              SessionStop "u"; SessionStart "u" 9; ButtonPress "u" long;
              Interval "u" 10 10] in
  truthy (activeRequests (run evs initial).1 !! "u") = true.
Proof.
  intros evs.
  apply (proj1 (flag_tells_pending "u" evs 1 ltac:(vm_compute; tauto)
           ltac:(by vm_compute))).
  reflexivity.
Defined.

(** X24 a capture failure that is not a disconnection does not stop the
    streaming and does not move [nextPhotoTime]: if streaming was on, the
    next tick past [nextPhotoTime] issues a capture again. *)
Theorem other_failure_retries :
  ∀ (userId : string) (e : JSError) (now now' : Z) (s : AppState),
    is_disconnection e = false →
    let s' := state_of (takePhotoAsync_resume userId (Rejected e) s) in
    isStreamingPhotos s' = isStreamingPhotos s ∧
    nextPhotoTime s' = nextPhotoTime s ∧
    photos s' = photos s ∧
    effects_of (takePhotoAsync_resume userId (Rejected e) s) = [] ∧
    effects_of (onInterval userId now now' s') =
      (if streaming s userId
          && (default 0 (nextPhotoTime s !! userId) <? now)%Z
       then [RequestPhoto userId] else []).
Proof.
  intros userId e now now' s He; cbv zeta.
  rewrite takePhotoAsync_resume_rejected, He. unfold_result.
  repeat split. rewrite onInterval_run. simpl. unfold streaming.
  rewrite lookup_insert_eq. simpl.
  by destruct (truthy (isStreamingPhotos s !! userId) && _).
Qed.

Lemma other_failure_retries_witness :
  let s := (run [SessionStart "u" 0; ButtonPress "u" long;
                 Interval "u" 1 1] initial).1 in
  effects_of (onInterval "u" 2002 2002
    (state_of (takePhotoAsync_resume "u"
                 (Rejected (mkJSError (Some "Photo request timed out"))) s)))
  = [RequestPhoto "u"].
Proof.
  intros s.
  by destruct (other_failure_retries "u"
                 (mkJSError (Some "Photo request timed out")) 2002 2002 s
                 eq_refl) as (_ & _ & _ & _ & ->).
Defined.
